(** * Review scraper: shallow embedding and verification

    The development models the review-harvesting pipeline of the
    repository (the Fiber/Selenium server and the earlier stand-alone
    [main.go]): heuristic discovery of candidate identifiers over raw
    markup, isolation of a subtree of the parsed document, the round
    trip through the completion service, and the pagination loop.

    Go strings are byte sequences; they are modelled as [list ascii].
    Go's [(value, error)] results are modelled by [result]; an [error]
    is represented by its message.  The browser, the completion
    service, the clock, the order of a range over a map and the library
    functions of packages [html] and [json] are the fields of the class
    [Runtime]; the code is a state-passing program over it.  The
    endless [for] loop of [handlePagination] is cut after a number of
    passes given as fuel.

    Layout: the embedding; a decoder and a simulated site that
    instantiate [Runtime] for concrete runs; reference notions used in
    the statements; then the properties. *)

From Stdlib Require Import Ascii String Bool Arith Lia.
From stdpp Require Import base decidable list gmap strings.

Open Scope list_scope.

(** ** Strings *)

Abbreviation gostring := (list ascii).

(** [str] turns a literal into a Go string. *)
Definition str (s : string) : gostring := list_ascii_of_string s.

(** The double quote, written by its code. *)
Definition dq : ascii := "034"%char.

(** [qq] reads a literal in which every backquote stands for a double
    quote, so that quoted markup and JSON can be written in one piece. *)
Definition qq (s : string) : gostring :=
  map (fun c => if Ascii.eqb c "`"%char then dq else c) (list_ascii_of_string s).

Definition error := gostring.

Inductive result (A : Type) : Type :=
| Ok (a : A)
| Err (e : error).
Arguments Ok {A} a.
Arguments Err {A} e.

Fixpoint gostring_eqb (a b : gostring) : bool :=
  match a, b with
  | [], [] => true
  | x :: a', y :: b' => Ascii.eqb x y && gostring_eqb a' b'
  | _, _ => false
  end.

(** ** Regular expressions (package [regexp])

    The two patterns of the program are interpreted by a backtracking
    matcher with Go's leftmost-first preference order: alternatives are
    tried left to right and greedy repetitions try the longest run
    first.  Matching is done on bytes; every literal of the two patterns
    is ASCII and the only character classes are negated ASCII classes
    and the dot under [(?s)], so byte-wise and rune-wise matching
    coincide on them. *)

Module Regexp.

Inductive regex : Type :=
| Eps
| Cls (p : ascii -> bool)
| Cat (r1 r2 : regex)
| Alt (r1 r2 : regex)
| Star (r : regex)
| Quest (r : regex)
| Group (i : nat) (r : regex).

(** Captures: group index to captured text. *)
Definition caps := list (nat * gostring).

Fixpoint getcap (i : nat) (c : caps) : gostring :=
  match c with
  | [] => []
  | (j, v) :: c' => if Nat.eqb i j then v else getcap i c'
  end.

(** The text consumed between the suffix [s] and the later suffix [s']. *)
Definition consumed (s s' : gostring) : gostring :=
  firstn (length s - length s') s.

Section Matcher.
Context {R : Type}.

(** A greedy repetition of [body]: one more round is tried first, as
    long as the round before consumed input; then the continuation. *)
Fixpoint starLoop
         (body : gostring -> caps -> (gostring -> caps -> option R) -> option R)
         (k : gostring -> caps -> option R)
         (n : nat) (s : gostring) (c : caps) {struct n} : option R :=
  match n with
  | O => k s c
  | S n' =>
      match body s c
              (fun s1 c1 =>
                 if Nat.ltb (length s1) (length s)
                 then starLoop body k n' s1 c1 else None) with
      | Some x => Some x
      | None => k s c
      end
  end.

Fixpoint mtch (r : regex) (s : gostring) (c : caps)
         (k : gostring -> caps -> option R) {struct r} : option R :=
  match r with
  | Eps => k s c
  | Cls p =>
      match s with
      | a :: s' => if p a then k s' c else None
      | [] => None
      end
  | Cat r1 r2 => mtch r1 s c (fun s1 c1 => mtch r2 s1 c1 k)
  | Alt r1 r2 =>
      match mtch r1 s c k with
      | Some x => Some x
      | None => mtch r2 s c k
      end
  | Star r1 => starLoop (mtch r1) k (length s) s c
  | Quest r1 =>
      match mtch r1 s c k with
      | Some x => Some x
      | None => k s c
      end
  | Group i r1 =>
      mtch r1 s c (fun s1 c1 => k s1 ((i, consumed s s1) :: c1))
  end.
End Matcher.

(** A match anchored at the start of [s]: the rest of the input after
    the match, and the captures. *)
Definition matchHere (r : regex) (s : gostring) : option (gostring * caps) :=
  mtch r s [] (fun s' c => Some (s', c)).

(** Leftmost match at or after the start of [s]: the skipped prefix is
    dropped, the matched text, the rest and the captures are returned. *)
Fixpoint leftmost (r : regex) (s : gostring) : option (gostring * gostring * caps) :=
  match matchHere r s with
  | Some (s', c) => Some (consumed s s', s', c)
  | None =>
      match s with
      | [] => None
      | _ :: t => leftmost r t
      end
  end.

(** [re.FindString(s)]: the text of the leftmost match, or the empty
    string when there is none. *)
Definition FindString (r : regex) (s : gostring) : gostring :=
  match leftmost r s with
  | Some (m, _, _) => m
  | None => []
  end.

(** The submatch slice of one match: the whole match followed by the
    text of groups [1..n]. *)
Definition submatches (n : nat) (m : gostring) (c : caps) : list gostring :=
  m :: map (fun i => getcap i c) (seq 1 n).

(** [re.FindAllStringSubmatch(s, -1)] for a pattern with [n] groups:
    successive non-overlapping leftmost matches.  After an empty match
    the scan moves one position on, and an empty match adjacent to the
    previous match is not reported. *)
Fixpoint allMatches (fuel : nat) (r : regex) (n : nat) (s : gostring)
         (afterMatch : bool) : list (list gostring) :=
  match fuel with
  | O => []
  | S fuel' =>
      match leftmost r s with
      | None => []
      | Some (m, s', c) =>
          match m with
          | [] =>
              let skipped := Nat.ltb (length s') (length s) in
              let rest := match s' with
                          | [] => []
                          | _ :: t => allMatches fuel' r n t false
                          end in
              if afterMatch && negb skipped then rest
              else submatches n m c :: rest
          | _ :: _ => submatches n m c :: allMatches fuel' r n s' true
          end
      end
  end.

Definition FindAllStringSubmatch (r : regex) (n : nat) (s : gostring)
  : list (list gostring) :=
  allMatches (S (length s)) r n s false.

(** What it means for [r] to match a prefix of [s], leaving [s'], and
    turning the captures [c] into [c'], whatever the preference among
    several ways to match. *)
Inductive Matches : regex -> gostring -> caps -> gostring -> caps -> Prop :=
| MEps s c : Matches Eps s c s c
| MCls (p : ascii -> bool) a s c : p a = true -> Matches (Cls p) (a :: s) c s c
| MCat r1 r2 s c s1 c1 s2 c2 :
    Matches r1 s c s1 c1 -> Matches r2 s1 c1 s2 c2 ->
    Matches (Cat r1 r2) s c s2 c2
| MAltL r1 r2 s c s' c' : Matches r1 s c s' c' -> Matches (Alt r1 r2) s c s' c'
| MAltR r1 r2 s c s' c' : Matches r2 s c s' c' -> Matches (Alt r1 r2) s c s' c'
| MStarNil r s c : Matches (Star r) s c s c
| MStarCons r s c s1 c1 s2 c2 :
    Matches r s c s1 c1 -> length s1 < length s ->
    Matches (Star r) s1 c1 s2 c2 ->
    Matches (Star r) s c s2 c2
| MQuestYes r s c s' c' : Matches r s c s' c' -> Matches (Quest r) s c s' c'
| MQuestNo r s c : Matches (Quest r) s c s c
| MGroup i r s c s' c' :
    Matches r s c s' c' ->
    Matches (Group i r) s c s' ((i, consumed s s') :: c').

(** Pattern constructors. *)
Definition lower (a : ascii) : ascii :=
  let n := nat_of_ascii a in
  if Nat.leb 65 n && Nat.leb n 90 then ascii_of_nat (n + 32) else a.

Definition chr (a : ascii) : regex := Cls (Ascii.eqb a).
(** A literal character under the flag [(?i)]. *)
Definition chri (a : ascii) : regex := Cls (fun x => Ascii.eqb (lower x) (lower a)).

Fixpoint lit (f : ascii -> regex) (s : gostring) : regex :=
  match s with
  | [] => Eps
  | [a] => f a
  | a :: s' => Cat (f a) (lit f s')
  end.

Definition isQuote (a : ascii) : bool :=
  Ascii.eqb a dq || Ascii.eqb a "'"%char.

(** Perl class [\s]: tab, newline, form feed, carriage return, space. *)
Definition isSpace (a : ascii) : bool :=
  Ascii.eqb a "009"%char || Ascii.eqb a "010"%char || Ascii.eqb a "012"%char
  || Ascii.eqb a "013"%char || Ascii.eqb a " "%char.

End Regexp.
Import Regexp.

(** The pattern of [findReviewIDs], under the flag (?i): the literal
    id= , one quote character (single or double), then group 1, then one
    quote character.  Group 1 is: any run of characters that are neither
    quotes nor white space, the literal review, an optional s, any run
    of characters that are not quotes.  (Under (?i) Go lets the optional
    s also match the long s, U+017F; the run of non-quote characters
    that follows takes the same bytes when the optional part does not,
    so the matches and the captured text are the same.) *)
Definition reviewIDPattern : regex :=
  Cat (lit chri (str "id="))
 (Cat (Cls isQuote)
 (Cat (Group 1
         (Cat (Star (Cls (fun a => negb (isQuote a || isSpace a))))
         (Cat (lit chri (str "review"))
         (Cat (Quest (chri "s"%char))
              (Star (Cls (fun a => negb (isQuote a))))))))
      (Cls isQuote))).

(** The pattern of [extractReviewDataUsingLLM], under the flag (?s): an
    opening bracket, any run of characters, a closing bracket. *)
Definition jsonPattern : regex :=
  Cat (chr "["%char) (Cat (Star (Cls (fun _ => true))) (chr "]"%char)).

(** ** Documents (package [golang.org/x/net/html])

    A parsed document is a tree of nodes; the sibling links of the Go
    representation become the list of children. *)

Inductive NodeType : Type :=
| ErrorNode | TextNode | DocumentNode | ElementNode | CommentNode
| DoctypeNode | RawNode.

Definition NodeType_eqb (a b : NodeType) : bool :=
  match a, b with
  | ErrorNode, ErrorNode | TextNode, TextNode | DocumentNode, DocumentNode
  | ElementNode, ElementNode | CommentNode, CommentNode
  | DoctypeNode, DoctypeNode | RawNode, RawNode => true
  | _, _ => false
  end.

Record Attribute : Type := mkAttr {
  Namespace : gostring;
  Key : gostring;
  Val : gostring
}.

#[warnings="-register-all"]
Inductive Node : Type :=
| mkNode (Type_ : NodeType) (Data : gostring) (Attr : list Attribute)
         (children : list Node).

Definition Type_ (n : Node) : NodeType := let (t, _, _, _) := n in t.
Definition Data (n : Node) : gostring := let (_, d, _, _) := n in d.
Definition Attr (n : Node) : list Attribute := let (_, _, a, _) := n in a.
Definition children (n : Node) : list Node := let (_, _, _, c) := n in c.

(** The loop over [n.Attr] inside [traverse]: does some attribute have
    key [id] and the value looked for. *)
Fixpoint attrLoop (attrs : list Attribute) (id : gostring) : bool :=
  match attrs with
  | [] => false
  | attr :: rest =>
      if gostring_eqb (Key attr) (str "id") && gostring_eqb (Val attr) id
      then true
      else attrLoop rest id
  end.

(** The closure [traverse] of [extractSectionByID].  The variable
    [section] it assigns is threaded through: a matching element stores
    itself and returns from this call only; otherwise every child is
    visited in order. *)
Fixpoint traverse (id : gostring) (n : Node) (section : option Node)
  : option Node :=
  match n with
  | mkNode t _ attrs cs =>
      if NodeType_eqb t ElementNode && attrLoop attrs id
      then Some n
      else fold_left (fun sec c => traverse id c sec) cs section
  end.

Definition extractSectionByID (doc : Node) (id : gostring) : option Node :=
  traverse id doc None.

(** ** Review records *)

Record Review : Type := mkReview {
  Title : gostring;
  Body : gostring;
  Rating : gostring;
  Reviewer : gostring
}.

(** ** The environment of the program

    Everything the program reaches through an interface or a library is
    a field of [Runtime]: the remote browser ([selenium.WebDriver] and
    [selenium.WebElement]), the completion service ([llms.LLM]), the
    clock, the iteration order the Go runtime picks for a [range] over a
    map, and the library functions [html.Parse], [html.Render] and
    [json.Unmarshal].  [World] is the state behind the interfaces. *)

Record CallOptions : Type := mkCallOptions {
  Temperature : nat * nat;   (* numerator and denominator *)
  MaxTokens : nat
}.

Class Runtime : Type := {
  World : Type;
  WebElement : Type;
  driver_Get : gostring -> World -> option error * World;
  driver_SetImplicitWaitTimeout : Z -> World -> option error * World;
  driver_PageSource : World -> result gostring * World;
  driver_FindElement : gostring -> gostring -> World -> result WebElement * World;
  driver_ExecuteScript : gostring -> World -> option error * World;
  element_Click : WebElement -> World -> option error * World;
  llms_GenerateFromSinglePrompt :
    gostring -> CallOptions -> World -> result gostring * World;
  time_Sleep : Z -> World -> World;
  (** [for id := range idSet]: the keys in the order of this iteration. *)
  map_range : gset gostring -> World -> list gostring * World;
  map_range_perm : forall X w, (map_range X w).1 ≡ₚ elements X;
  html_Parse : gostring -> result Node;
  html_Render : Node -> gostring;
  json_Unmarshal : gostring -> result (list Review)
}.

Definition Second : Z := 1000000000.
Definition pageLoadTimeout : Z := 10 * Second.
Definition ByCSSSelector : gostring := str "css selector".

(** The state of one run: the world, what the standard logger and the
    standard output have received, and the variable [allReviews] that the
    closure of [ScrapeReviews] captures and appends to. *)
Record StateOf (W : Type) : Type := mkState {
  world : W;
  logs : list gostring;
  stdout : list gostring;
  allReviews : list Review
}.
Arguments mkState {W} _ _ _ _.
Arguments world {W} _.
Arguments logs {W} _.
Arguments stdout {W} _.
Arguments allReviews {W} _.

Abbreviation State := (StateOf World).

(** State-passing computations. *)
Definition M `{Runtime} (A : Type) : Type := State -> A * State.

Definition ret `{Runtime} {A} (a : A) : M A := fun s => (a, s).
Definition bind `{Runtime} {A B} (m : M A) (f : A -> M B) : M B :=
  fun s => let (a, s') := m s in f a s'.

Notation "'let*' x ':=' m 'in' k" := (bind m (fun x => k))
  (at level 10, x name, m at level 100, k at level 200).
Notation "'do' m 'then' k" := (bind m (fun _ => k))
  (at level 10, m at level 100, k at level 200).

Section Scraper.
Context `{RT : Runtime}.

(** A call through an interface acts on the world only. *)
Definition call {A} (op : World -> A * World) : M A :=
  fun s => let (a, w) := op (world s) in
           (a, mkState w (logs s) (stdout s) (allReviews s)).

Definition sleep (d : Z) : M unit :=
  fun s => (tt, mkState (time_Sleep d (world s)) (logs s) (stdout s) (allReviews s)).

(** [log.Println] and [log.Printf]: one more line for the logger. *)
Definition log_Print (line : gostring) : M unit :=
  fun s => (tt, mkState (world s) (logs s ++ [line]) (stdout s) (allReviews s)).

Definition fmt_Println (line : gostring) : M unit :=
  fun s => (tt, mkState (world s) (logs s) (stdout s ++ [line]) (allReviews s)).

(** [allReviews = append(allReviews, reviews...)]. *)
Definition appendReviews (reviews : list Review) : M unit :=
  fun s => (tt, mkState (world s) (logs s) (stdout s) (allReviews s ++ reviews)).

(** [var allReviews []Review]. *)
Definition declareAllReviews : M unit :=
  fun s => (tt, mkState (world s) (logs s) (stdout s) []).

Definition getAllReviews : M (list Review) := fun s => (allReviews s, s).

(** *** findReviewIDs (server)

    Every match contributes its first group to the set [idSet]; the
    result lists the set in the order of one [range] over it. *)
Definition idSetOf (matches : list (list gostring)) : gset gostring :=
  fold_left (fun idSet m =>
               if Nat.ltb 1 (length m) then {[ nth 1 m [] ]} ∪ idSet else idSet)
            matches ∅.

Definition findReviewIDs (html : gostring) : M (list gostring) :=
  let matches := FindAllStringSubmatch reviewIDPattern 1 html in
  call (map_range (idSetOf matches)).

(** *** renderNodeToString *)
Definition renderNodeToString (n : Node) : gostring := html_Render n.

(** *** extractReviewDataUsingLLM (server) *)
Definition promptHead : gostring := qq "
You are an assistant. Extract all review details from the following HTML snippet in strict JSON format. 
Identify the title, body, rating, and reviewer for each review. Return only the JSON response.

HTML:
".

Definition promptTail : gostring := qq "

JSON format:
[
  {
    `title`: `Review Title`,
    `body`: `Review Body`,
    `rating`: `Rating (e.g., 5 stars, 4/5, etc.)`,
    `reviewer`: `Reviewer Name`
  },
  ...
]
".

Definition prompt (sectionHTML : gostring) : gostring :=
  promptHead ++ sectionHTML ++ promptTail.

Definition callOptions : CallOptions := mkCallOptions (8, 10) 4096.

Definition extractReviewDataUsingLLM (sectionHTML : gostring)
  : M (result (list Review)) :=
  let* r := call (llms_GenerateFromSinglePrompt (prompt sectionHTML) callOptions) in
  match r with
  | Err err => ret (Err (str "failed to generate completion: " ++ err))
  | Ok response =>
      let matches := FindString jsonPattern response in
      match matches with
      | [] => ret (Err (str "failed to extract JSON from response"))
      | _ :: _ =>
          match json_Unmarshal matches with
          | Err err => ret (Err (str "failed to parse review JSON: " ++ err))
          | Ok reviews => ret (Ok reviews)
          end
      end
  end.

(** *** handlePagination *)
Definition nextSelectors : list gostring :=
  [ str ".pagination-next"; str "a[rel='next']"; str "button:contains('Next')";
    str ".see-more-button"; str ".load-more" ].

(** The loop over [nextSelectors]: the first selector that finds an
    element ends the search. *)
Fixpoint findNextButton (selectors : list gostring) : M (option WebElement) :=
  match selectors with
  | [] => ret None
  | selector :: rest =>
      let* r := call (driver_FindElement ByCSSSelector selector) in
      match r with
      | Ok nextButton => ret (Some nextButton)
      | Err _ => findNextButton rest
      end
  end.

(** The ways one pass through the body of the [for] loop can end. *)
Inductive outcome : Type :=
| Clicked                               (* end of the body; next pass *)
| Scrolled (newPageSource : gostring)   (* [continue] with a new baseline *)
| Stagnant (newPageSource : gostring)   (* [break] *)
| Failed (err : error).                 (* [return err] *)

Definition scrollScript : gostring :=
  str "window.scrollTo(0, document.body.scrollHeight);".

Definition iteration (processPage : gostring -> M (option error))
           (prevPageSource : gostring) : M outcome :=
  let* r := call driver_PageSource in
  match r with
  | Err err => ret (Failed (str "failed to fetch page source: " ++ err))
  | Ok pageSource =>
      let* e := processPage pageSource in
      match e with
      | Some err => ret (Failed (str "failed to process page: " ++ err))
      | None =>
          let* found := findNextButton nextSelectors in
          match found with
          | None =>
              let* e := call (driver_ExecuteScript scrollScript) in
              match e with
              | Some err => ret (Failed (str "failed to scroll: " ++ err))
              | None =>
                  do sleep (2 * Second) then
                  let* r := call driver_PageSource in
                  match r with
                  | Err err =>
                      ret (Failed (str "failed to fetch new page source: " ++ err))
                  | Ok newPageSource =>
                      if gostring_eqb newPageSource prevPageSource
                      then ret (Stagnant newPageSource)
                      else ret (Scrolled newPageSource)
                  end
              end
          | Some nextButton =>
              let* e := call (element_Click nextButton) in
              match e with
              | Some err =>
                  ret (Failed (str "failed to click pagination element: " ++ err))
              | None => do sleep (2 * Second) then ret Clicked
              end
          end
      end
  end.

(** The [for] loop, cut after [fuel] passes: [None] when the loop is
    still running then, [Some e] when it has returned [e]. *)
Fixpoint paginate (fuel : nat) (processPage : gostring -> M (option error))
         (prevPageSource : gostring) : M (option (option error)) :=
  match fuel with
  | O => ret None
  | S fuel' =>
      let* o := iteration processPage prevPageSource in
      match o with
      | Clicked => paginate fuel' processPage prevPageSource
      | Scrolled newPageSource => paginate fuel' processPage newPageSource
      | Stagnant _ => ret (Some None)
      | Failed err => ret (Some (Some err))
      end
  end.

Definition handlePagination (fuel : nat)
           (processPage : gostring -> M (option error))
  : M (option (option error)) :=
  paginate fuel processPage [].

(** *** ScrapeReviews *)

(** The body of the loop over [reviewIDs]. *)
Definition processSection (doc : Node) (id : gostring) : M unit :=
  match extractSectionByID doc id with
  | None => log_Print (str "Section with id " ++ id ++ str " not found")
  | Some section =>
      let sectionHTML := renderNodeToString section in
      let* r := extractReviewDataUsingLLM sectionHTML in
      match r with
      | Err err =>
          log_Print (str "Error extracting reviews for section " ++ id
                       ++ str ": " ++ err)
      | Ok reviews => appendReviews reviews
      end
  end.

Fixpoint processSections (doc : Node) (reviewIDs : list gostring) : M unit :=
  match reviewIDs with
  | [] => ret tt
  | id :: rest => do processSection doc id then processSections doc rest
  end.

(** The closure passed to [handlePagination]. *)
Definition processPage (pageSource : gostring) : M (option error) :=
  let* reviewIDs := findReviewIDs pageSource in
  match reviewIDs with
  | [] => do log_Print (str "No review sections found") then ret None
  | _ :: _ =>
      match html_Parse pageSource with
      | Err err => ret (Some (str "error parsing HTML: " ++ err))
      | Ok doc => do processSections doc reviewIDs then ret None
      end
  end.

(** [None] when the pagination loop is still running after [fuel]
    passes. *)
Definition ScrapeReviews (fuel : nat) (url : gostring)
  : M (option (result (list Review))) :=
  let* e := call (driver_Get url) in
  match e with
  | Some err => ret (Some (Err (str "failed to load page: " ++ err)))
  | None =>
      let* e := call (driver_SetImplicitWaitTimeout pageLoadTimeout) in
      match e with
      | Some err => ret (Some (Err (str "failed to set implicit wait: " ++ err)))
      | None =>
          do declareAllReviews then
          let* r := handlePagination fuel processPage in
          match r with
          | None => ret None
          | Some (Some err) =>
              ret (Some (Err (str "error during pagination: " ++ err)))
          | Some None =>
              let* reviews := getAllReviews in
              ret (Some (Ok reviews))
          end
      end
  end.

End Scraper.

(** ** The stand-alone program [main.go]

    The earlier command-line version has its own [findReviewIDs] and
    [extractReviewDataUsingLLM]; [extractSectionByID] and
    [renderNodeToString] are the same as in the server. *)

Module MainGo.
Section Prototype.
Context `{RT : Runtime}.

(** Every match appends its first group to [ids]. *)
Definition findReviewIDs (html : gostring) : list gostring :=
  let matches := FindAllStringSubmatch reviewIDPattern 1 html in
  fold_left (fun ids m =>
               if Nat.ltb 1 (length m) then ids ++ [nth 1 m []] else ids)
            matches [].

Definition extractReviewDataUsingLLM (sectionHTML : gostring)
  : M (result (list Review)) :=
  let* r := call (llms_GenerateFromSinglePrompt (prompt sectionHTML) callOptions) in
  match r with
  | Err err => ret (Err (str "failed to generate completion: " ++ err))
  | Ok response =>
      do fmt_Println (str "Raw LLM Response: " ++ response) then
      let matches := FindString jsonPattern response in
      match matches with
      | [] => ret (Err (str "failed to extract JSON from response: " ++ response))
      | _ :: _ =>
          match json_Unmarshal matches with
          | Err err => ret (Err (str "failed to parse review JSON: " ++ err))
          | Ok reviews => ret (Ok reviews)
          end
      end
  end.
End Prototype.
End MainGo.

(** ** A decoder for [json.Unmarshal] into a slice of [Review]

    [json.Unmarshal] is a field of [Runtime]; this module is the
    instance used for concrete runs.  It follows package
    [encoding/json]: the whole input must be one JSON value surrounded
    by white space only; elements are objects whose keys are matched
    against the field tags exactly or ignoring case; unknown keys are
    skipped, [null] leaves a field as it is, a later duplicate key wins,
    and a value of another kind for a string field is an error.  Error
    texts are abbreviated. *)

Module Json.

#[warnings="-register-all"]
Inductive value : Type :=
| JNull
| JBool (b : bool)
| JNumber (literal : gostring)
| JString (s : gostring)
| JArray (elems : list value)
| JObject (members : list (gostring * value)).

Definition isWs (a : ascii) : bool :=
  Ascii.eqb a " "%char || Ascii.eqb a "009"%char || Ascii.eqb a "013"%char
  || Ascii.eqb a "010"%char.

Fixpoint skipWs (s : gostring) : gostring :=
  match s with
  | a :: t => if isWs a then skipWs t else s
  | [] => []
  end.

Definition isDigit (a : ascii) : bool :=
  let n := N_of_ascii a in (48 <=? n)%N && (n <=? 57)%N.

Definition hexVal (a : ascii) : option N :=
  let n := N_of_ascii a in
  if (48 <=? n)%N && (n <=? 57)%N then Some (n - 48)%N
  else if (97 <=? n)%N && (n <=? 102)%N then Some (n - 87)%N
  else if (65 <=? n)%N && (n <=? 70)%N then Some (n - 55)%N
  else None.

(** [getu4]: four hexadecimal digits. *)
Definition getu4 (s : gostring) : option (N * gostring) :=
  match s with
  | a :: b :: c :: d :: t =>
      match hexVal a, hexVal b, hexVal c, hexVal d with
      | Some x, Some y, Some z, Some w =>
          Some (((x * 16 + y) * 16 + z) * 16 + w, t)%N
      | _, _, _, _ => None
      end
  | _ => None
  end.

Definition byte (n : N) : ascii := ascii_of_N n.

(** [utf8.EncodeRune]. *)
Definition encodeRune (r : N) : gostring :=
  (if r <? 128 then [byte r]
   else if r <? 2048 then [byte (192 + r / 64); byte (128 + r mod 64)]
   else if r <? 65536 then
     [byte (224 + r / 4096); byte (128 + (r / 64) mod 64); byte (128 + r mod 64)]
   else
     [byte (240 + r / 262144); byte (128 + (r / 4096) mod 64);
      byte (128 + (r / 64) mod 64); byte (128 + r mod 64)])%N.

Definition runeError : N := 65533.

Definition isSurrogate (r : N) : bool := (55296 <=? r)%N && (r <? 57344)%N.

Definition cont (a : ascii) (lo hi : N) : bool :=
  let n := N_of_ascii a in (lo <=? n)%N && (n <=? hi)%N.

(** The number of bytes of the well-formed UTF-8 sequence at the head
    of [s], or [0] when the head byte starts none. *)
Definition runeLen (s : gostring) : nat :=
  match s with
  | [] => 0
  | a :: t =>
      let n := N_of_ascii a in
      if (n <? 128)%N then 1
      else if (194 <=? n)%N && (n <=? 223)%N then
        match t with b :: _ => if cont b 128 191 then 2 else 0 | _ => 0 end
      else if (224 <=? n)%N && (n <=? 239)%N then
        match t with
        | b :: c :: _ =>
            let lo := if (n =? 224)%N then 160%N else 128%N in
            let hi := if (n =? 237)%N then 159%N else 191%N in
            if cont b lo hi && cont c 128 191 then 3 else 0
        | _ => 0
        end
      else if (240 <=? n)%N && (n <=? 244)%N then
        match t with
        | b :: c :: d :: _ =>
            let lo := if (n =? 240)%N then 144%N else 128%N in
            let hi := if (n =? 244)%N then 143%N else 191%N in
            if cont b lo hi && cont c 128 191 && cont d 128 191 then 4 else 0
        | _ => 0
        end
      else 0
  end.

(** The body of a string literal after its opening quote: escapes are
    decoded and ill-formed UTF-8 is replaced by U+FFFD. *)
Fixpoint parseString (fuel : nat) (s : gostring) (acc : gostring)
  : option (gostring * gostring) :=
  match fuel with
  | O => None
  | S fuel' =>
      match s with
      | [] => None
      | a :: t =>
          if Ascii.eqb a dq then Some (acc, t)
          else if Ascii.eqb a "\"%char then
            match t with
            | [] => None
            | e :: t' =>
                if Ascii.eqb e dq then parseString fuel' t' (acc ++ [dq])
                else if Ascii.eqb e "\"%char then parseString fuel' t' (acc ++ ["\"%char])
                else if Ascii.eqb e "/"%char then parseString fuel' t' (acc ++ ["/"%char])
                else if Ascii.eqb e "b"%char then parseString fuel' t' (acc ++ ["008"%char])
                else if Ascii.eqb e "f"%char then parseString fuel' t' (acc ++ ["012"%char])
                else if Ascii.eqb e "n"%char then parseString fuel' t' (acc ++ ["010"%char])
                else if Ascii.eqb e "r"%char then parseString fuel' t' (acc ++ ["013"%char])
                else if Ascii.eqb e "t"%char then parseString fuel' t' (acc ++ ["009"%char])
                else if Ascii.eqb e "u"%char then
                  match getu4 t' with
                  | None => None
                  | Some (r, t2) =>
                      if isSurrogate r then
                        match t2 with
                        | b1 :: b2 :: t3 =>
                            if Ascii.eqb b1 "\"%char && Ascii.eqb b2 "u"%char then
                              match getu4 t3 with
                              | Some (r2, t4) =>
                                  if (r <? 56320)%N && (56320 <=? r2)%N && (r2 <? 57344)%N
                                  then parseString fuel' t4
                                         (acc ++ encodeRune
                                            ((r - 55296) * 1024 + (r2 - 56320) + 65536)%N)
                                  else parseString fuel' t2 (acc ++ encodeRune runeError)
                              | None => parseString fuel' t2 (acc ++ encodeRune runeError)
                              end
                            else parseString fuel' t2 (acc ++ encodeRune runeError)
                        | _ => parseString fuel' t2 (acc ++ encodeRune runeError)
                        end
                      else parseString fuel' t2 (acc ++ encodeRune r)
                  end
                else None
            end
          else if (N_of_ascii a <? 32)%N then None
          else
            match runeLen s with
            | O => parseString fuel' t (acc ++ encodeRune runeError)
            | S n => parseString fuel' (skipn n t) (acc ++ a :: firstn n t)
            end
      end
  end.

Fixpoint digits (s : gostring) : gostring * gostring :=
  match s with
  | a :: t => if isDigit a then let (d, r) := digits t in (a :: d, r) else ([], s)
  | [] => ([], [])
  end.

(** A number literal at the head of [s]. *)
Definition parseNumber (s : gostring) : option (gostring * gostring) :=
  let (sign, s1) := match s with
                    | a :: t => if Ascii.eqb a "-"%char then ([a], t) else ([], s)
                    | [] => ([], s)
                    end in
  match digits s1 with
  | ([], _) => None
  | (d :: ds, s2) =>
      if Ascii.eqb d "0"%char && negb (Nat.eqb (length ds) 0) then
        (* a leading zero ends the integer part *)
        None
      else
        let intpart := sign ++ d :: ds in
        let fracOf (s2 : gostring) : option (gostring * gostring) :=
          match s2 with
          | a :: t =>
              if Ascii.eqb a "."%char then
                match digits t with
                | ([], _) => None
                | (f, s3) => Some (a :: f, s3)
                end
              else Some ([], s2)
          | [] => Some ([], s2)
          end in
        let expOf (s3 : gostring) : option (gostring * gostring) :=
          match s3 with
          | a :: t =>
              if Ascii.eqb a "e"%char || Ascii.eqb a "E"%char then
                let (sg, t1) := match t with
                                | b :: t' =>
                                    if Ascii.eqb b "+"%char || Ascii.eqb b "-"%char
                                    then ([b], t') else ([], t)
                                | [] => ([], t)
                                end in
                match digits t1 with
                | ([], _) => None
                | (e, s4) => Some (a :: sg ++ e, s4)
                end
              else Some ([], s3)
          | [] => Some ([], s3)
          end in
        match fracOf s2 with
        | None => None
        | Some (f, s3) =>
            match expOf s3 with
            | None => None
            | Some (e, s4) => Some (intpart ++ f ++ e, s4)
            end
        end
  end.

Fixpoint dropPrefix (p s : gostring) : option gostring :=
  match p, s with
  | [], _ => Some s
  | a :: p', b :: s' => if Ascii.eqb a b then dropPrefix p' s' else None
  | _ :: _, [] => None
  end.

(** One value at the head of [s] (after white space); the elements of
    an array after its opening bracket; the members of an object after
    its opening brace. *)
Fixpoint parseValue (fuel : nat) (s : gostring) : option (value * gostring) :=
  match fuel with
  | O => None
  | S fuel' =>
      match skipWs s with
      | [] => None
      | a :: t =>
          if Ascii.eqb a "{"%char then
            match skipWs t with
            | b :: t' =>
                if Ascii.eqb b "}"%char then Some (JObject [], t')
                else
                  match parseMembers fuel' (b :: t') with
                  | Some (ms, r) => Some (JObject ms, r)
                  | None => None
                  end
            | [] => None
            end
          else if Ascii.eqb a "["%char then
            match skipWs t with
            | b :: t' =>
                if Ascii.eqb b "]"%char then Some (JArray [], t')
                else
                  match parseElems fuel' (b :: t') with
                  | Some (vs, r) => Some (JArray vs, r)
                  | None => None
                  end
            | [] => None
            end
          else if Ascii.eqb a dq then
            match parseString (S (length t)) t [] with
            | Some (v, r) => Some (JString v, r)
            | None => None
            end
          else if Ascii.eqb a "t"%char then
            option_map (fun r => (JBool true, r)) (dropPrefix (str "rue") t)
          else if Ascii.eqb a "f"%char then
            option_map (fun r => (JBool false, r)) (dropPrefix (str "alse") t)
          else if Ascii.eqb a "n"%char then
            option_map (fun r => (JNull, r)) (dropPrefix (str "ull") t)
          else
            match parseNumber (a :: t) with
            | Some (n, r) => Some (JNumber n, r)
            | None => None
            end
      end
  end
with parseElems (fuel : nat) (s : gostring) : option (list value * gostring) :=
  match fuel with
  | O => None
  | S fuel' =>
      match parseValue fuel' s with
      | None => None
      | Some (v, r) =>
          match skipWs r with
          | c :: r' =>
              if Ascii.eqb c ","%char then
                match parseElems fuel' r' with
                | Some (vs, r2) => Some (v :: vs, r2)
                | None => None
                end
              else if Ascii.eqb c "]"%char then Some ([v], r')
              else None
          | [] => None
          end
      end
  end
with parseMembers (fuel : nat) (s : gostring)
     : option (list (gostring * value) * gostring) :=
  match fuel with
  | O => None
  | S fuel' =>
      match skipWs s with
      | q :: t =>
          if Ascii.eqb q dq then
            match parseString (S (length t)) t [] with
            | None => None
            | Some (key, r) =>
                match skipWs r with
                | c :: r1 =>
                    if Ascii.eqb c ":"%char then
                      match parseValue fuel' r1 with
                      | None => None
                      | Some (v, r2) =>
                          match skipWs r2 with
                          | d :: r3 =>
                              if Ascii.eqb d ","%char then
                                match parseMembers fuel' r3 with
                                | Some (ms, r4) => Some ((key, v) :: ms, r4)
                                | None => None
                                end
                              else if Ascii.eqb d "}"%char then Some ([(key, v)], r3)
                              else None
                          | [] => None
                          end
                      end
                    else None
                | [] => None
                end
            end
          else None
      | [] => None
      end
  end.

(** The whole input as one value ([checkValid] and the scan). *)
Definition parse (data : gostring) : option value :=
  match parseValue (S (length data)) data with
  | Some (v, r) => match skipWs r with [] => Some v | _ :: _ => None end
  | None => None
  end.

Definition foldEq (a b : gostring) : bool :=
  gostring_eqb (map lower a) (map lower b).

Definition kindOf (v : value) : gostring :=
  match v with
  | JNull => str "null" | JBool _ => str "bool" | JNumber _ => str "number"
  | JString _ => str "string" | JArray _ => str "array" | JObject _ => str "object"
  end.

(** Storing the value of one member into the record being filled. *)
Definition setField (r : Review) (key : gostring) (v : value) : result Review :=
  let store (upd : gostring -> Review) : result Review :=
    match v with
    | JString s => Ok (upd s)
    | JNull => Ok r
    | _ => Err (str "json: cannot unmarshal " ++ kindOf v
                  ++ str " into Go struct field of type string")
    end in
  if foldEq key (str "title") then
    store (fun s => mkReview s (Body r) (Rating r) (Reviewer r))
  else if foldEq key (str "body") then
    store (fun s => mkReview (Title r) s (Rating r) (Reviewer r))
  else if foldEq key (str "rating") then
    store (fun s => mkReview (Title r) (Body r) s (Reviewer r))
  else if foldEq key (str "reviewer") then
    store (fun s => mkReview (Title r) (Body r) (Rating r) s)
  else Ok r.

(** Decoding goes on after a value of the wrong kind; the first such
    error is the one reported at the end. *)
Fixpoint decodeMembers (ms : list (gostring * value)) (r : Review)
         (saved : option error) : Review * option error :=
  match ms with
  | [] => (r, saved)
  | (key, v) :: rest =>
      match setField r key v with
      | Ok r' => decodeMembers rest r' saved
      | Err e => decodeMembers rest r (match saved with Some _ => saved | None => Some e end)
      end
  end.

Definition zeroReview : Review := mkReview [] [] [] [].

Definition decodeReview (v : value) (saved : option error) : Review * option error :=
  match v with
  | JObject ms => decodeMembers ms zeroReview saved
  | JNull => (zeroReview, saved)
  | _ => (zeroReview,
          match saved with
          | Some _ => saved
          | None => Some (str "json: cannot unmarshal " ++ kindOf v
                            ++ str " into Go value of type main.Review")
          end)
  end.

Fixpoint decodeReviews (vs : list value) (saved : option error)
  : list Review * option error :=
  match vs with
  | [] => ([], saved)
  | v :: rest =>
      let (r, saved1) := decodeReview v saved in
      let (rs, saved2) := decodeReviews rest saved1 in
      (r :: rs, saved2)
  end.

(** [json.Unmarshal(data, &reviews)] for [reviews] of type [[]Review]. *)
Definition Unmarshal (data : gostring) : result (list Review) :=
  match parse data with
  | None => Err (str "invalid JSON input")
  | Some (JArray vs) =>
      match decodeReviews vs None with
      | (rs, None) => Ok rs
      | (_, Some e) => Err e
      end
  | Some JNull => Ok []
  | Some v => Err (str "json: cannot unmarshal " ++ kindOf v
                     ++ str " into Go value of type []main.Review")
  end.

End Json.

(** ** A simulated site

    A runtime for concrete runs: the browser is an automaton whose state
    is a number; each state has its markup and possibly one pagination
    control, and clicking or scrolling moves to another state.  The
    completion service answers by prompt, the parser is a table from
    markup to document, and a [range] over a set lists its elements
    either in the order of [elements] or in the reverse order. *)

Module Sim.

(** [html.EscapeString]. *)
Fixpoint escape (s : gostring) : gostring :=
  match s with
  | [] => []
  | a :: t =>
      (if Ascii.eqb a "&"%char then str "&amp;"
       else if Ascii.eqb a "'"%char then str "&#39;"
       else if Ascii.eqb a "<"%char then str "&lt;"
       else if Ascii.eqb a ">"%char then str "&gt;"
       else if Ascii.eqb a dq then str "&#34;"
       else if Ascii.eqb a "013"%char then str "&#13;"
       else [a]) ++ escape t
  end.

Definition renderAttr (a : Attribute) : gostring :=
  str " " ++ Key a ++ str "=" ++ [dq] ++ escape (Val a) ++ [dq].

(** [html.Render] for the documents of the samples: a document node,
    elements that have an end tag and no raw text, and text. *)
Fixpoint render (n : Node) : gostring :=
  match n with
  | mkNode t data attrs cs =>
      let inner := flat_map render cs in
      match t with
      | ElementNode =>
          str "<" ++ data ++ flat_map renderAttr attrs ++ str ">"
            ++ inner ++ str "</" ++ data ++ str ">"
      | TextNode => escape data
      | DocumentNode => inner
      | _ => []
      end
  end.

Record Site : Type := mkSite {
  markup : nat -> gostring;
  control : nat -> option gostring;
  afterClick : nat -> nat;
  afterScroll : nat -> nat;
  documents : list (gostring * Node);
  completion : gostring -> result gostring;
  reverseRange : bool
}.

Fixpoint lookupDocument (docs : list (gostring * Node)) (s : gostring)
  : result Node :=
  match docs with
  | [] => Err (str "unexpected input")
  | (k, d) :: rest => if gostring_eqb k s then Ok d else lookupDocument rest s
  end.

Definition rangeOrder (rev : bool) (X : gset gostring) : list gostring :=
  if rev then reverse (elements X) else elements X.

Definition runtime (site : Site) : Runtime := {|
  World := nat;
  WebElement := unit;
  driver_Get := fun _ w => (None, w);
  driver_SetImplicitWaitTimeout := fun _ w => (None, w);
  driver_PageSource := fun w => (Ok (markup site w), w);
  driver_FindElement := fun _ selector w =>
    match control site w with
    | Some c => if gostring_eqb c selector then (Ok tt, w)
                else (Err (str "no such element"), w)
    | None => (Err (str "no such element"), w)
    end;
  driver_ExecuteScript := fun _ w => (None, afterScroll site w);
  element_Click := fun _ w => (None, afterClick site w);
  llms_GenerateFromSinglePrompt := fun p _ w => (completion site p, w);
  time_Sleep := fun _ w => w;
  map_range := fun X w => (rangeOrder (reverseRange site) X, w);
  map_range_perm := fun X w =>
    match reverseRange site as rev return rangeOrder rev X ≡ₚ elements X with
    | true => reverse_Permutation (elements X)
    | false => Permutation_refl (elements X)
    end;
  html_Parse := lookupDocument (documents site);
  html_Render := render;
  json_Unmarshal := Json.Unmarshal
|}.

Definition start (site : Site) : StateOf nat := mkState 0 [] [] [].

(** [strings.Contains]. *)
Fixpoint isPrefix (p s : gostring) : bool :=
  match p, s with
  | [], _ => true
  | a :: p', b :: s' => Ascii.eqb a b && isPrefix p' s'
  | _ :: _, [] => false
  end.

Fixpoint contains (s sub : gostring) : bool :=
  isPrefix sub s || match s with [] => false | _ :: t => contains t sub end.

(** Shorthands for building documents. *)
Definition text (s : gostring) : Node := mkNode TextNode s [] [].
Definition elem (tag : string) (attrs : list (string * string)) (cs : list Node) : Node :=
  mkNode ElementNode (str tag)
         (map (fun kv => mkAttr [] (str kv.1) (str kv.2)) attrs) cs.
Definition page (body : list Node) : Node :=
  mkNode DocumentNode [] []
         [elem "html" [] [elem "head" [] []; elem "body" [] body]].

End Sim.

(** ** Observations on a run of the pagination loop *)

Section Observations.
Context `{RT : Runtime}.

(** The outcomes of the passes of the loop, in order, up to [fuel]
    passes. *)
Fixpoint outcomes (fuel : nat) (processPage : gostring -> M (option error))
         (prevPageSource : gostring) (s : State) : list outcome :=
  match fuel with
  | O => []
  | S fuel' =>
      let (o, s') := iteration processPage prevPageSource s in
      o :: match o with
           | Clicked => outcomes fuel' processPage prevPageSource s'
           | Scrolled newPageSource => outcomes fuel' processPage newPageSource s'
           | Stagnant _ | Failed _ => []
           end
  end.





Definition isScroll (o : outcome) : bool :=
  match o with Scrolled _ | Stagnant _ => true | _ => false end.
End Observations.

(** ** Reference notions for subtree isolation *)

(** An element whose [id] attribute is exactly [id]. *)
Definition hasID (id : gostring) (n : Node) : bool :=
  NodeType_eqb (Type_ n) ElementNode && attrLoop (Attr n) id.

(** All nodes of a tree in document order (a node before its children,
    children from first to last). *)
Fixpoint subtrees (n : Node) : list Node :=
  match n with
  | mkNode _ _ _ cs => n :: flat_map subtrees cs
  end.

(** Subtree isolation as the specification words it: the first element
    in document order whose [id] attribute equals [id]. *)
Definition firstByID (doc : Node) (id : gostring) : option Node :=
  List.find (hasID id) (subtrees doc).

(** The later of two results of a search. *)
Definition override {A} (new old : option A) : option A :=
  match new with Some x => Some x | None => old end.

(** ** Reference notions for discovery *)

Definition notQuote (a : ascii) : bool := negb (isQuote a).
Definition notQuoteOrSpace (a : ascii) : bool := negb (isQuote a || isSpace a).

(** [s] starts with an id-style attribute whose quoted value is [v], and
    goes on with [post]: the letters id and the equals sign in any case,
    a quote, a value without quotes in which the word review (in any
    case) is preceded by no white space, and a quote. *)
Definition idAttribute (s v post : gostring) : Prop :=
  exists name q1 a w b q2,
    s = name ++ q1 :: a ++ w ++ b ++ q2 :: post
    /\ map lower name = str "id="
    /\ isQuote q1 = true /\ isQuote q2 = true
    /\ forallb notQuoteOrSpace a = true
    /\ map lower w = str "review"
    /\ forallb notQuote b = true
    /\ v = a ++ w ++ b.

(** Every attribute-like match that starts inside [pre] also ends inside
    [pre]: no earlier match runs into [s]. *)
Definition clearBefore (pre s : gostring) : Prop :=
  forall pre1 pre2 v e,
    pre = pre1 ++ pre2 -> pre2 <> [] ->
    idAttribute (pre2 ++ s) v e -> length s <= length e.

Definition openBr : ascii := "["%char.
Definition closeBr : ascii := "]"%char.
Definition anyChar : ascii -> bool := fun _ => true.

(** ** What a run contributes, section by section *)

Section Yields.
Context `{RT : Runtime}.

(** The state [s] with another world. *)
Definition withWorld (s : State) (w : World) : State :=
  mkState w (logs s) (stdout s) (allReviews s).

(** The reviews one candidate section yields when it is processed in
    state [s]: those decoded from the reply, none when the section is
    not found or the extraction fails. *)
Definition sectionYield (doc : Node) (id : gostring) (s : State) : list Review :=
  match extractSectionByID doc id with
  | None => []
  | Some section =>
      match (extractReviewDataUsingLLM (renderNodeToString section) s).1 with
      | Ok reviews => reviews
      | Err _ => []
      end
  end.

(** The yields of the candidates [ids], processed in this order. *)
Fixpoint sectionsYield (doc : Node) (ids : list gostring) (s : State)
  : list (gostring * list Review) :=
  match ids with
  | [] => []
  | id :: rest =>
      (id, sectionYield doc id s)
        :: sectionsYield doc rest (processSection doc id s).2
  end.

(** The yields of one page snapshot, in the order in which discovery
    listed its candidates. *)
Definition pageYield (pageSource : gostring) (s : State)
  : list (gostring * list Review) :=
  let (ids, s1) := findReviewIDs pageSource s in
  match html_Parse pageSource with
  | Ok doc => sectionsYield doc ids s1
  | Err _ => []
  end.

(** The snapshots processed by the passes of the loop, each with its
    yields, in the order of the passes. *)
Fixpoint runYield (fuel : nat) (prevPageSource : gostring) (s : State)
  : list (gostring * list (gostring * list Review)) :=
  match fuel with
  | O => []
  | S fuel' =>
      match call driver_PageSource s with
      | (Err _, _) => []
      | (Ok pageSource, s1) =>
          (pageSource, pageYield pageSource s1)
            :: match iteration processPage prevPageSource s with
               | (Clicked, s') => runYield fuel' prevPageSource s'
               | (Scrolled newPageSource, s') => runYield fuel' newPageSource s'
               | (Stagnant _, _) | (Failed _, _) => []
               end
      end
  end.

Definition reviewsOf (pages : list (gostring * list (gostring * list Review)))
  : list Review :=
  flat_map (fun p => flat_map snd p.2) pages.

(** The state in which [ScrapeReviews] enters the pagination loop. *)
Definition afterSetup (url : gostring) (s : State) : State :=
  let s1 := (call (driver_Get url) s).2 in
  let s2 := (call (driver_SetImplicitWaitTimeout pageLoadTimeout) s1).2 in
  (declareAllReviews s2).2.
End Yields.

(** ** Sample sites, documents and replies *)

Module Samples.
Import Sim.

Definition plainPage : Node := page [elem "p" [] [text (str "hello")]].

(** One page, no pagination control, scrolling changes nothing. *)
Definition staticSite : Site :=
  mkSite (fun _ => render plainPage) (fun _ => None) (fun n => n) (fun n => n)
         [(render plainPage, plainPage)] (fun _ => Err (str "unused")) false.


(** Infinite scroll: every scroll reveals one more paragraph, up to
    [limit] of them. *)
Definition growingPage (n : nat) : Node :=
  page (repeat (elem "p" [] [text (str "more")]) n).
Definition scrollSite (limit : nat) : Site :=
  mkSite (fun n => render (growingPage n)) (fun _ => None) (fun n => n)
         (fun n => if Nat.ltb n limit then S n else n)
         [] (fun _ => Err (str "unused")) false.

(** Every page has a next link and the same markup. *)
Definition loopSite : Site :=
  mkSite (fun _ => render plainPage) (fun _ => Some (str ".pagination-next"))
         (fun n => S n) (fun n => n) [] (fun _ => Err (str "unused")) false.

(** A document in which two sibling elements carry the same id. *)
Definition firstSection : Node := elem "div" [("id", "reviews")] [text (str "first")].
Definition secondSection : Node := elem "div" [("id", "reviews")] [text (str "second")].
Definition duplicateIDs : Node := page [firstSection; secondSection].

(** All the ways to cut a piece out of a text. *)
Definition substrings (s : gostring) : list gostring :=
  flat_map (fun i => map (fun n => firstn n (skipn i s)) (seq 1 (length s - i)))
           (seq 0 (length s)).

(** The pieces of a reply that are bracket-delimited arrays decoding
    to review records. *)
Definition arraysIn (reply : gostring) : list gostring :=
  List.filter (fun t =>
            match t with
            | a :: _ =>
                Ascii.eqb a openBr && Ascii.eqb (List.last t a) closeBr
                && match Json.Unmarshal t with Ok _ => true | Err _ => false end
            | [] => false
            end) (substrings reply).

Definition oneReview : gostring :=
  qq "[{`title`:`Good`,`body`:`Fine`,`rating`:`4/5`,`reviewer`:`Ann`}]".

Definition notedReply : gostring := str "[Note] " ++ oneReview.
Definition chattyReply : gostring :=
  str "Here is the JSON: " ++ oneReview ++ str " Hope it helps.".
Definition sorryReply : gostring := str "Sorry, I could not find any reviews.".

(** A site with one section, whose completion service always gives
    the same reply. *)
Definition sectionPage : Node :=
  page [elem "div" [("id", "reviews")] [text (str "Good. Fine. 4/5. Ann")]].
Definition donePage : Node := page [elem "p" [] [text (str "end")]].

Definition replySite (reply : gostring) : Site :=
  mkSite (fun n => match n with O => render sectionPage | S _ => render donePage end)
         (fun _ => None) (fun n => n) (fun _ => 1)
         [(render sectionPage, sectionPage); (render donePage, donePage)]
         (fun _ => Ok reply) false.

(** A page with two sections; the completion service answers by the
    section it is shown. *)
Definition twoSections : Node :=
  page [elem "div" [("id", "b-reviews")] [text (str "B")];
        elem "div" [("id", "a-reviews")] [text (str "A")]].

Definition replyBySection (p : gostring) : result gostring :=
  if contains p (str "b-reviews")
  then Ok (qq "[{`title`:`tb`,`body`:`B`,`rating`:`5`,`reviewer`:`x`}]")
  else Ok (qq "[{`title`:`ta`,`body`:`A`,`rating`:`4`,`reviewer`:`y`}]").

Definition twoSectionSite (rev : bool) : Site :=
  mkSite (fun n => match n with O => render twoSections | S _ => render donePage end)
         (fun _ => None) (fun n => n) (fun _ => 1)
         [(render twoSections, twoSections); (render donePage, donePage)]
         replyBySection rev.

(** A page whose only attribute-like text is a [data-id]. *)
Definition dataIdPage : Node :=
  page [elem "div" [("data-id", "reviews-x")] [text (str "x")]].
Definition dataIdSite : Site :=
  mkSite (fun _ => render dataIdPage) (fun _ => None) (fun n => n) (fun n => n)
         [(render dataIdPage, dataIdPage)] (fun _ => Ok sorryReply) false.

(** Three pages linked by a next control: two reviews, one review,
    none; the last page has no control and does not grow. *)
Definition pageN (n : nat) : Node :=
  match n with
  | 0 => page [elem "div" [("id", "reviews-1")] [text (str "one")]]
  | 1 => page [elem "div" [("id", "reviews-2")] [text (str "two")]]
  | _ => page [elem "div" [("id", "reviews-3")] [text (str "three")]]
  end.

Definition replyByPage (p : gostring) : result gostring :=
  if contains p (str "reviews-1")
  then Ok (qq "[{`title`:`a`,`body`:`A`,`rating`:`5`,`reviewer`:`x`},
                  {`title`:`b`,`body`:`B`,`rating`:`4`,`reviewer`:`y`}]")
  else if contains p (str "reviews-2")
  then Ok (qq "Found one: [{`title`:`c`,`body`:`C`,`rating`:`3`,`reviewer`:`z`}]")
  else Ok (str "[]").

Definition threePageSite : Site :=
  mkSite (fun n => render (pageN n))
         (fun n => if Nat.ltb n 2 then Some (str "a[rel='next']") else None)
         (fun n => S n) (fun n => n)
         [(render (pageN 0), pageN 0); (render (pageN 1), pageN 1);
          (render (pageN 2), pageN 2)]
         replyByPage false.

Definition threePageReviews : list Review :=
  [mkReview (str "a") (str "A") (str "5") (str "x");
   mkReview (str "b") (str "B") (str "4") (str "y");
   mkReview (str "c") (str "C") (str "3") (str "z")].

Definition twoSectionReviews : list Review :=
  [mkReview (str "tb") (str "B") (str "5") (str "x");
   mkReview (str "ta") (str "A") (str "4") (str "y")].
End Samples.
Import Sim Samples.

(** ** The claims that fail, as they are stated *)

(** C1 as stated: after a scroll the loop is done exactly when the new
    markup equals the markup fetched at the top of the same pass. *)
Definition done_iff_same_as_processed : Prop :=
  forall (RT : Runtime) (pp : gostring -> M (option error))
         prev s src s1 s2 s3 s4 new s5,
    call driver_PageSource s = (Ok src, s1) ->
    pp src s1 = (None, s2) ->
    findNextButton nextSelectors s2 = (None, s3) ->
    call (driver_ExecuteScript scrollScript) s3 = (None, s4) ->
    call driver_PageSource (sleep (2 * Second) s4).2 = (Ok new, s5) ->
    (iteration pp prev s = (Stagnant new, s5) <-> new = src).

(** C2 as stated: the page snapshots and the replies fix the output. *)
Definition output_fixed_by_pages_and_replies : Prop :=
  forall (a b : Site) fuel url,
    markup a = markup b -> control a = control b ->
    afterClick a = afterClick b -> afterScroll a = afterScroll b ->
    documents a = documents b -> completion a = completion b ->
    (@ScrapeReviews (runtime a) fuel url (start a)).1
    = (@ScrapeReviews (runtime b) fuel url (start b)).1.


(** C6 as stated: every quoted id value that holds the word review in
    some case is discovered, white space before the word or not. *)
Definition every_review_id_is_discovered : Prop :=
  forall (RT : Runtime) (st : State) pre v post q a w b,
    isQuote q = true -> forallb notQuote v = true ->
    v = a ++ w ++ b -> map lower w = str "review" ->
    In v (findReviewIDs (pre ++ str "id=" ++ q :: v ++ q :: post) st).1.

(** C8 as stated: a reply that holds exactly one well-formed array of
    review objects is decoded to that array. *)
Definition unique_array_is_extracted : Prop :=
  forall (site : Site) sectionHTML reply arr rs,
    completion site (prompt sectionHTML) = Ok reply ->
    arraysIn reply = [arr] ->
    Json.Unmarshal arr = Ok rs ->
    (@extractReviewDataUsingLLM (runtime site) sectionHTML (start site)).1 = Ok rs.


(** ** The rest of the server: configuration, start-up, shutdown and the
    request handler

    What these functions reach outside the program is the class [Host]:
    the process environment, the loader of the [.env] file, the
    constructors of the completion client and of the remote browser
    session, the end of a session, and (for the stand-alone program)
    the HTTP client. *)

Record Response (B : Type) : Type := mkResponse {
  StatusCode : Z;
  Status : gostring;
  Body_ : B
}.
Arguments mkResponse {B} _ _ _.
Arguments StatusCode {B} _.
Arguments Status {B} _.
Arguments Body_ {B} _.

(** [selenium.Capabilities] as the program builds them. *)
Record Capabilities : Type := mkCapabilities {
  browserName : gostring;
  chromeArgs : list gostring
}.

Class Host `{RT : Runtime} : Type := {
  LLMClient : Type;
  WebDriver : Type;
  ReadCloser : Type;
  os_Getenv : gostring -> World -> gostring;
  godotenv_Load : World -> option error * World;
  (** [openai.New] with the options model, base URL and token. *)
  openai_New : gostring -> gostring -> gostring -> World -> result LLMClient * World;
  selenium_NewRemote : Capabilities -> gostring -> World -> result WebDriver * World;
  driver_Quit : WebDriver -> World -> option error * World;
  http_Get : gostring -> World -> result (Response ReadCloser) * World;
  ioutil_ReadAll : ReadCloser -> World -> result gostring * World;
  body_Close : ReadCloser -> World -> option error * World
}.

Record SeleniumConfig : Type := mkSeleniumConfig {
  Host_ : gostring;
  Port : gostring
}.

(** [ReviewScraper]; a nil [driver] is [None]. *)
Record ReviewScraperOf (L D : Type) : Type := mkReviewScraper {
  llm : L;
  driver : option D
}.
Arguments mkReviewScraper {L D} _ _.
Arguments llm {L D} _.
Arguments driver {L D} _.
Abbreviation ReviewScraper := (ReviewScraperOf LLMClient WebDriver).

(** [APIResponse]. *)
Module Api.
Record APIResponse : Type := mkAPIResponse {
  Success : bool;
  Data : list Review;
  Error : gostring
}.
End Api.

(** How a [main] function ends: it returns, or the process exits with a
    status (after [log.Fatal], without running deferred calls). *)
Inductive ending : Type :=
| Returned
| Exited (code : Z).

Section Server.
Context `{HT : Host}.

Definition getEnvOrDefault (key defaultValue : gostring) : M gostring :=
  fun s =>
    let value := os_Getenv key (world s) in
    (match value with
     | _ :: _ => value
     | [] => defaultValue
     end, s).

Definition GetSeleniumConfig : M SeleniumConfig :=
  let* host := getEnvOrDefault (str "SELENIUM_HOST") (str "localhost") in
  let* port := getEnvOrDefault (str "SELENIUM_PORT") (str "4444") in
  ret (mkSeleniumConfig host port).

Definition chromeCaps : Capabilities :=
  mkCapabilities (str "chrome")
    [str "--no-sandbox"; str "--headless"; str "--disable-gpu";
     str "--disable-dev-shm-usage"].

Definition NewReviewScraper : M (result ReviewScraper) :=
  let* err := call godotenv_Load in
  do (match err with
      | Some _ => log_Print (str "Warning: Error loading .env file")
      | None => ret tt
      end) then
  let* apiKey := (fun s => (os_Getenv (str "GROQ_API_KEY") (world s), s)) in
  match apiKey with
  | [] => ret (Err (str "GROQ_API_KEY environment variable is required"))
  | _ :: _ =>
      let* r := call (openai_New (str "llama-3.3-70b-versatile")
                                 (str "https://api.groq.com/openai/v1") apiKey) in
      match r with
      | Err err => ret (Err (str "error initializing LLM: " ++ err))
      | Ok client =>
          let* seleniumConfig := GetSeleniumConfig in
          let* r := call (selenium_NewRemote chromeCaps
                            (str "http://" ++ Host_ seleniumConfig ++ str ":"
                               ++ Port seleniumConfig ++ str "/wd/hub")) in
          match r with
          | Err err =>
              ret (Err (str "failed to connect to Selenium WebDriver: " ++ err))
          | Ok d => ret (Ok (mkReviewScraper client (Some d)))
          end
      end
  end.

(** [Close]: the result of [Quit] is dropped. *)
Definition Close (rs : ReviewScraper) : M unit :=
  match driver rs with
  | Some d => let* _ := call (driver_Quit d) in ret tt
  | None => ret tt
  end.

(** The handler that [setupRoutes] registers for [/api/reviews]; [page]
    is the value of the query parameter of that name, the response is what goes to
    [c.JSON]; [None] when the pagination loop is still running after
    [fuel] passes. *)
Definition reviewsHandler (fuel : nat) (page : gostring)
  : M (option Api.APIResponse) :=
  match page with
  | [] =>
      ret (Some (Api.mkAPIResponse false []
                   (str "URL parameter 'page' is required")))
  | _ :: _ =>
      let* r := ScrapeReviews fuel page in
      match r with
      | None => ret None
      | Some (Err err) => ret (Some (Api.mkAPIResponse false [] err))
      | Some (Ok reviews) => ret (Some (Api.mkAPIResponse true reviews []))
      end
  end.

End Server.

(** ** The rest of the stand-alone program: [fetchHTML] and [main] *)

Module MainProgram.
Section Prototype.
Context `{HT : Host}.

(** [fetchHTML]; the deferred [resp.Body.Close()] runs last on every
    path after a successful request. *)
Definition fetchHTML (url : gostring) : M (result gostring) :=
  let* r := call (http_Get url) in
  match r with
  | Err err => ret (Err (str "failed to fetch page: " ++ err))
  | Ok resp =>
      let* result :=
        (if Z.eqb (StatusCode resp) 200
         then
           let* b := call (ioutil_ReadAll (Body_ resp)) in
           match b with
           | Err err => ret (Err (str "failed to read response body: " ++ err))
           | Ok html => ret (Ok html)
           end
         else ret (Err (str "failed to fetch page, status: " ++ Status resp))) in
      let* _ := call (body_Close (Body_ resp)) in
      ret result
  end.

(** [%+v] of a [Review] and of a slice of them. *)
Definition formatReview (r : Review) : gostring :=
  str "{Title:" ++ Title r ++ str " Body:" ++ Body r ++ str " Rating:" ++ Rating r
    ++ str " Reviewer:" ++ Reviewer r ++ str "}".

Fixpoint joinWith (sep : gostring) (l : list gostring) : gostring :=
  match l with
  | [] => []
  | [x] => x
  | x :: rest => x ++ sep ++ joinWith sep rest
  end.

Definition formatReviews (rs : list Review) : gostring :=
  str "[" ++ joinWith (str " ") (map formatReview rs) ++ str "]".

Definition productURL : gostring :=
  str "https://bhumi.com.au/products/waffle-blanket?variant=46359624417437".

(** The body of the loop over [reviewIDs] in [main]. *)
Definition handleSection (doc : Node) (id : gostring) : M unit :=
  match extractSectionByID doc id with
  | None => log_Print (str "Section with id " ++ id ++ str " not found")
  | Some section =>
      let sectionHTML := renderNodeToString section in
      let* r := MainGo.extractReviewDataUsingLLM sectionHTML in
      match r with
      | Err err =>
          log_Print (str "Error extracting reviews for section " ++ id
                       ++ str ": " ++ err)
      | Ok reviews =>
          fmt_Println (str "Reviews for section " ++ id ++ str ":" ++ ["010"%char]
                         ++ formatReviews reviews)
      end
  end.

Fixpoint handleSections (doc : Node) (reviewIDs : list gostring) : M unit :=
  match reviewIDs with
  | [] => ret tt
  | id :: rest => do handleSection doc id then handleSections doc rest
  end.

Definition main : M ending :=
  let* err := call godotenv_Load in
  match err with
  | Some _ =>
      do log_Print (str "Error loading .env file") then ret (Exited 1)
  | None =>
      let* apiKey := (fun s => (os_Getenv (str "GROQ_API_KEY") (world s), s)) in
      let* r := call (openai_New (str "llama-3.3-70b-versatile")
                                 (str "https://api.groq.com/openai/v1") apiKey) in
      match r with
      | Err err => do log_Print err then ret (Exited 1)
      | Ok _ =>
          let* r := fetchHTML productURL in
          match r with
          | Err err =>
              do fmt_Println (str "Error fetching HTML: " ++ err) then ret Returned
          | Ok htmlContent =>
              let reviewIDs := MainGo.findReviewIDs htmlContent in
              match reviewIDs with
              | [] =>
                  do log_Print (str "No review sections found") then ret Returned
              | _ :: _ =>
                  match html_Parse htmlContent with
                  | Err err =>
                      do log_Print (str "Error parsing HTML: " ++ err) then
                      ret (Exited 1)
                  | Ok doc =>
                      do handleSections doc reviewIDs then ret Returned
                  end
              end
          end
      end
  end.

End Prototype.
End MainProgram.

(** ** Further reference notions *)

(** The elements carrying [id] that are not inside another such
    element, in document order. *)
Fixpoint topMatches (id : gostring) (n : Node) : list Node :=
  match n with
  | mkNode t _ attrs cs =>
      if NodeType_eqb t ElementNode && attrLoop attrs id
      then [n]
      else flat_map (topMatches id) cs
  end.



(** Two states that differ at most in what was logged and printed. *)
Definition sameRun {W : Type} (s s' : StateOf W) : Prop :=
  world s = world s' /\ allReviews s = allReviews s'.

(** A computation whose result and effect on the world and on the
    collected reviews depend on the world and the collected reviews
    only. *)
Definition respects `{RT : Runtime} {A} (m : M A) : Prop :=
  forall s s', sameRun s s' -> (m s).1 = (m s').1 /\ sameRun (m s).2 (m s').2.

(** ** A simulated machine

    The simulated site with one operation of the browser that can be
    made to fail, and a host with a fixed environment. *)

Module Machine.

Inductive Fault : Type :=
| NoFault | GetFails | WaitFails | SourceFails | ScriptFails | ClickFails.

Definition fails (f g : Fault) : bool :=
  match f, g with
  | GetFails, GetFails | WaitFails, WaitFails | SourceFails, SourceFails
  | ScriptFails, ScriptFails | ClickFails, ClickFails => true
  | _, _ => false
  end.

Definition down : error := str "session not reachable".

Definition runtime (site : Site) (f : Fault) : Runtime := {|
  World := nat;
  WebElement := unit;
  driver_Get := fun _ w => (if fails f GetFails then Some down else None, w);
  driver_SetImplicitWaitTimeout := fun _ w =>
    (if fails f WaitFails then Some down else None, w);
  driver_PageSource := fun w =>
    (if fails f SourceFails then Err down else Ok (markup site w), w);
  driver_FindElement := fun _ selector w =>
    match control site w with
    | Some c => if gostring_eqb c selector then (Ok tt, w)
                else (Err (str "no such element"), w)
    | None => (Err (str "no such element"), w)
    end;
  driver_ExecuteScript := fun _ w =>
    if fails f ScriptFails then (Some down, w) else (None, afterScroll site w);
  element_Click := fun _ w =>
    if fails f ClickFails then (Some down, w) else (None, afterClick site w);
  llms_GenerateFromSinglePrompt := fun p _ w => (completion site p, w);
  time_Sleep := fun _ w => w;
  map_range := fun X w => (rangeOrder (reverseRange site) X, w);
  map_range_perm := fun X w =>
    match reverseRange site as rev return rangeOrder rev X ≡ₚ elements X with
    | true => reverse_Permutation (elements X)
    | false => Permutation_refl (elements X)
    end;
  html_Parse := lookupDocument (documents site);
  html_Render := render;
  json_Unmarshal := Json.Unmarshal
|}.

Record Setup : Type := mkSetup {
  environ : list (gostring * gostring);
  dotenvFails : bool;
  clientFails : bool;
  remoteFails : bool;
  (** The answer to every HTTP request: status code, status text and
      body, or a transport error. *)
  answer : result (Z * gostring * result gostring)
}.

Fixpoint lookupEnv (env : list (gostring * gostring)) (key : gostring) : gostring :=
  match env with
  | [] => []
  | (k, v) :: rest => if gostring_eqb k key then v else lookupEnv rest key
  end.

(** The world counts the sessions quit and the bodies closed: a quit
    adds 100, a close adds 1. *)
Definition host (site : Site) (f : Fault) (m : Setup) : @Host (runtime site f) :=
  @Build_Host (runtime site f)
    unit gostring (result gostring)
    (fun key _ => lookupEnv (environ m) key)
    (fun w : nat =>
       (if dotenvFails m then Some (str "open .env: no such file or directory")
        else None, w))
    (fun _ _ _ (w : nat) =>
       (if clientFails m then Err (str "missing the OpenAI API key") else Ok tt, w))
    (fun _ url (w : nat) =>
       (if remoteFails m then Err (str "connection refused") else Ok url, w))
    (fun _ (w : nat) => (None, w + 100))
    (fun _ (w : nat) =>
       (match answer m with
        | Ok (code, status, body) => Ok (mkResponse code status body)
        | Err e => Err e
        end, w))
    (fun b (w : nat) => (b, w))
    (fun _ (w : nat) => (None, w + 1)).

(** A site whose completion service is down. *)
Definition downSite : Site :=
  mkSite (fun n => match n with O => render sectionPage | S _ => render donePage end)
         (fun _ => None) (fun n => n) (fun _ => 1)
         [(render sectionPage, sectionPage); (render donePage, donePage)]
         (fun _ => Err (str "rate limit reached")) false.

(** An environment with a key and a port, and one without a key. *)
Definition keyed : Setup :=
  mkSetup [(str "GROQ_API_KEY", str "gsk_x"); (str "SELENIUM_PORT", str "4445");
           (str "SELENIUM_HOST", [])]
          true false false (Ok (200%Z, str "200 OK", Ok (render sectionPage))).
Definition keyless : Setup :=
  mkSetup [(str "GROQ_API_KEY", [])] false false false (Err (str "no route to host")).
Definition notFound : Setup :=
  mkSetup [] false false false
          (Ok (404%Z, str "404 Not Found", Ok (str "<html>gone</html>"))).

End Machine.

(** ** Further samples *)

Module MoreSamples.

(** The section of [sectionPage]. *)
Definition reviewsDiv : Node :=
  elem "div" [("id", "reviews")] [text (str "Good. Fine. 4/5. Ann")].

(** A reply whose bracketed text is an array of numbers. *)
Definition numbersReply : gostring := str "Ratings: [1, 2]".

(** A page that has nothing to do with the word. *)
Definition aboutPage : gostring :=
  str "<html><head></head><body><p id='about'>About us</p></body></html>".

(** A document with a match inside a match, followed by a match. *)
Definition nested : Node :=
  page [elem "div" [("id", "reviews")]
          [elem "span" [("id", "reviews")] [text (str "inner")]];
        elem "div" [("id", "reviews")] [text (str "second")]].

(** One page with one review section, no pagination control, on which
    scrolling changes nothing; the completion service answers with one
    review. *)
Definition staticSectionSite : Site :=
  mkSite (fun _ => render sectionPage) (fun _ => None) (fun n => n) (fun n => n)
         [(render sectionPage, sectionPage)] (fun _ => Ok oneReview) false.

End MoreSamples.
Import MoreSamples.

(** The address of the browser session for the environment of world
    [w]. *)
Definition hubHost `{Host} (w : World) : gostring :=
  match os_Getenv (str "SELENIUM_HOST") w with
  | [] => str "localhost"
  | _ :: _ => os_Getenv (str "SELENIUM_HOST") w
  end.
Definition hubPort `{Host} (w : World) : gostring :=
  match os_Getenv (str "SELENIUM_PORT") w with
  | [] => str "4444"
  | _ :: _ => os_Getenv (str "SELENIUM_PORT") w
  end.
Definition hubURL `{Host} (w : World) : gostring :=
  str "http://" ++ hubHost w ++ str ":" ++ hubPort w ++ str "/wd/hub".

(** * Properties *)

(** ** The matcher and the patterns *)

Section MatcherTheory.
Context {R : Type}.
Implicit Types (k : gostring -> caps -> option R).

Lemma starLoop_sound r
  (IHr : forall s c k x, mtch r s c k = Some x ->
           exists s' c', Matches r s c s' c' /\ k s' c' = Some x) :
  forall n s c k x, starLoop (mtch r) k n s c = Some x ->
    exists s' c', Matches (Star r) s c s' c' /\ k s' c' = Some x.
Proof.
  induction n as [|n IHn]; intros s c k x; simpl.
  - intros H. exists s, c. split; [constructor | exact H].
  - destruct (mtch r s c _) as [y|] eqn:E.
    + intros [= ->]. apply IHr in E as (s1 & c1 & M1 & E).
      destruct (Nat.ltb_spec (length s1) (length s)) as [Hlt|]; [|discriminate].
      apply IHn in E as (s2 & c2 & M2 & E).
      exists s2, c2. split; [econstructor; eauto | exact E].
    + intros H. exists s, c. split; [constructor | exact H].
Qed.

Lemma mtch_sound r : forall s c k x,
  mtch r s c k = Some x ->
  exists s' c', Matches r s c s' c' /\ k s' c' = Some x.
Proof.
  induction r as [|p|r1 IH1 r2 IH2|r1 IH1 r2 IH2|r IH|r IH|i r IH];
    intros s c k x; simpl.
  - intros H. exists s, c. split; [constructor | exact H].
  - destruct s as [|a s]; [discriminate|].
    destruct (p a) eqn:E; [|discriminate].
    intros H. exists s, c. split; [now constructor | exact H].
  - intros H. apply IH1 in H as (s1 & c1 & M1 & H).
    apply IH2 in H as (s2 & c2 & M2 & H).
    exists s2, c2. split; [econstructor; eauto | exact H].
  - destruct (mtch r1 s c k) as [y|] eqn:E.
    + intros [= ->]. apply IH1 in E as (s' & c' & M & E).
      exists s', c'. split; [now apply MAltL | exact E].
    + intros H. apply IH2 in H as (s' & c' & M & H).
      exists s', c'. split; [now apply MAltR | exact H].
  - exact (starLoop_sound r IH (length s) s c k x).
  - destruct (mtch r s c k) as [y|] eqn:E.
    + intros [= ->]. apply IH in E as (s' & c' & M & E).
      exists s', c'. split; [now apply MQuestYes | exact E].
    + intros H. exists s, c. split; [apply MQuestNo | exact H].
  - intros H. apply IH in H as (s' & c' & M & H).
    exists s', ((i, consumed s s') :: c'). split; [now constructor | exact H].
Qed.

Lemma starLoop_complete r
  (IHr : forall s c s' c', Matches r s c s' c' ->
           forall k x, k s' c' = Some x -> exists y, mtch r s c k = Some y) :
  forall r0 s c s' c', Matches r0 s c s' c' -> r0 = Star r ->
    forall n k x, length s <= n -> k s' c' = Some x ->
      exists y, starLoop (mtch r) k n s c = Some y.
Proof.
  induction 1 as [| | | | |r' s c|r' s c s1 c1 s2 c2 M1 _ Hlt M2 IH2| | |];
    intros Heq; try discriminate; injection Heq as ->;
    intros n k x Hn Hk.
  - destruct n; simpl; [eauto|]. destruct (mtch r s c _); eauto.
  - destruct n as [|n]; [lia|]. simpl.
    destruct (IH2 eq_refl n k x ltac:(lia) Hk) as [y Hy].
    destruct (IHr _ _ _ _ M1
                (fun s1' c1' => if Nat.ltb (length s1') (length s)
                                then starLoop (mtch r) k n s1' c1' else None) y)
      as [z Hz].
    { destruct (Nat.ltb_spec (length s1) (length s)); [exact Hy | lia]. }
    rewrite Hz. eauto.
Qed.

Lemma mtch_complete r : forall s c s' c',
  Matches r s c s' c' ->
  forall k x, k s' c' = Some x -> exists y, mtch r s c k = Some y.
Proof.
  induction r as [|p|r1 IH1 r2 IH2|r1 IH1 r2 IH2|r IH|r IH|i r IH];
    intros s c s' c' M k x Hk.
  - inversion M; subst. simpl. eauto.
  - inversion M; subst. simpl. rewrite H0. eauto.
  - inversion M; subst. simpl.
    destruct (IH2 _ _ _ _ H6 k x Hk) as [y Hy].
    eapply IH1; eauto.
  - simpl. inversion M; subst.
    + destruct (IH1 _ _ _ _ H5 k x Hk) as [y ->]. eauto.
    + destruct (mtch r1 s c k); [eauto|]. eapply IH2; eauto.
  - simpl. eapply starLoop_complete; eauto.
  - simpl. inversion M; subst.
    + destruct (IH _ _ _ _ H0 k x Hk) as [y ->]. eauto.
    + destruct (mtch r s' c' k); eauto.
  - inversion M; subst. simpl. eapply IH; eauto.
Qed.
End MatcherTheory.

(** A match leaves a suffix of its input. *)
Lemma Matches_suffix r s c s' c' :
  Matches r s c s' c' -> exists m, s = m ++ s'.
Proof.
  induction 1.
  - now exists [].
  - now exists [a].
  - destruct IHMatches1 as [m1 ->], IHMatches2 as [m2 ->].
    exists (m1 ++ m2). now rewrite <- app_assoc.
  - assumption.
  - assumption.
  - now exists [].
  - destruct IHMatches1 as [m1 ->], IHMatches2 as [m2 ->].
    exists (m1 ++ m2). now rewrite <- app_assoc.
  - assumption.
  - now exists [].
  - assumption.
Qed.

Lemma consumed_app (m s' : gostring) : consumed (m ++ s') s' = m.
Proof.
  unfold consumed. rewrite length_app.
  replace (length m + length s' - length s') with (length m) by lia.
  now rewrite firstn_app, Nat.sub_diag, firstn_all, firstn_O, app_nil_r.
Qed.

Lemma matchHere_sound r s s' c :
  matchHere r s = Some (s', c) -> Matches r s [] s' c.
Proof.
  unfold matchHere. intros H.
  apply mtch_sound in H as (s1 & c1 & M & [= <- <-]). exact M.
Qed.

Lemma matchHere_complete r s s' c :
  Matches r s [] s' c -> exists y, matchHere r s = Some y.
Proof. intros M. eapply mtch_complete; eauto. Qed.

(** Repetition of one character class. *)
Lemma Matches_star_cls p s c s' c' :
  Matches (Star (Cls p)) s c s' c' ->
  exists run, s = run ++ s' /\ forallb p run = true /\ c' = c.
Proof.
  remember (Star (Cls p)) as r eqn:E. induction 1; try discriminate.
  - now exists [].
  - injection E as ->. inversion H; subst.
    destruct (IHMatches2 eq_refl) as (run & -> & Hrun & ->).
    exists (a :: run). simpl.
    match goal with Hp : p a = true |- _ => rewrite Hp, Hrun end. auto.
Qed.

Lemma Matches_star_cls_intro p run s c :
  forallb p run = true -> Matches (Star (Cls p)) (run ++ s) c s c.
Proof.
  induction run as [|a run IH]; simpl; [constructor|].
  intros H. apply andb_true_iff in H as [H1 H2].
  eapply MStarCons; [now constructor | simpl; lia | now apply IH].
Qed.

Lemma Matches_cls_inv p s c s' c' :
  Matches (Cls p) s c s' c' -> exists a, s = a :: s' /\ p a = true /\ c' = c.
Proof. inversion 1; subst; eauto. Qed.

Lemma Matches_cat_inv r1 r2 s c s' c' :
  Matches (Cat r1 r2) s c s' c' ->
  exists s1 c1, Matches r1 s c s1 c1 /\ Matches r2 s1 c1 s' c'.
Proof. inversion 1; subst; eauto. Qed.

Lemma Matches_lit_chri w : forall s c s' c',
  Matches (lit chri w) s c s' c' <->
  exists w', s = w' ++ s' /\ map lower w' = map lower w /\ c' = c.
Proof.
  induction w as [|a w IH]; intros s c s' c'.
  - simpl. split.
    + inversion 1; subst. now exists [].
    + intros (w' & -> & H & ->). destruct w'; [constructor | discriminate].
  - destruct w as [|b w].
    + simpl. split.
      * intros H. apply Matches_cls_inv in H as (x & -> & Hx & ->).
        apply Ascii.eqb_eq in Hx. exists [x]. simpl. now rewrite Hx.
      * intros (w' & -> & H & ->). destruct w' as [|x [|? ?]]; try discriminate.
        injection H as H. constructor. now apply Ascii.eqb_eq.
    + change (lit chri (a :: b :: w)) with (Cat (chri a) (lit chri (b :: w))). split.
      * intros H. apply Matches_cat_inv in H as (s1 & c1 & H1 & H2).
        apply Matches_cls_inv in H1 as (x & -> & Hx & ->).
        apply IH in H2 as (w' & -> & Hw & ->).
        apply Ascii.eqb_eq in Hx. exists (x :: w'). simpl. simpl in Hw.
        now rewrite Hx, Hw.
      * intros (w' & -> & H & ->). destruct w' as [|x w']; [discriminate|].
        simpl in H. injection H as Hx Hw.
        econstructor.
        -- constructor. now apply Ascii.eqb_eq.
        -- apply IH. exists w'. auto.
Qed.

Lemma lower_quote x : isQuote x = true -> lower x = x.
Proof.
  unfold isQuote. intros H. apply orb_true_iff in H as [H|H];
    apply Ascii.eqb_eq in H; subst; reflexivity.
Qed.

Lemma notQuote_lower w :
  forallb notQuote (map lower w) = true -> forallb notQuote w = true.
Proof.
  induction w as [|x w IH]; simpl; [auto|].
  intros H. apply andb_true_iff in H as [H1 H2]. rewrite IH by exact H2.
  unfold notQuote in *. destruct (isQuote x) eqn:E; [|reflexivity].
  rewrite (lower_quote _ E), E in H1. discriminate.
Qed.

Lemma notQuoteOrSpace_notQuote a :
  forallb notQuoteOrSpace a = true -> forallb notQuote a = true.
Proof.
  induction a as [|x a IH]; simpl; [auto|].
  intros H. apply andb_true_iff in H as [H1 H2]. rewrite IH by exact H2.
  unfold notQuoteOrSpace, notQuote in *. now destruct (isQuote x).
Qed.

Lemma first_split_unique (P : ascii -> bool) l1 : forall x r1 l2 y r2,
  l1 ++ x :: r1 = l2 ++ y :: r2 ->
  forallb (fun a => negb (P a)) l1 = true -> P x = true ->
  forallb (fun a => negb (P a)) l2 = true -> P y = true ->
  l1 = l2 /\ x = y /\ r1 = r2.
Proof.
  induction l1 as [|a l1 IH]; intros x r1 [|b l2] y r2; simpl;
    intros E H1 Hx H2 Hy; injection E as E1 E2; subst.
  - auto.
  - rewrite Hx in H2. discriminate.
  - rewrite Hy in H1. discriminate.
  - apply andb_true_iff in H1 as [_ H1], H2 as [_ H2].
    destruct (IH _ _ _ _ _ E2 H1 Hx H2 Hy) as (-> & -> & ->). auto.
Qed.

(** The value of an attribute contains no quote. *)
Lemma idAttribute_value_notQuote a w b :
  forallb notQuoteOrSpace a = true -> map lower w = str "review" ->
  forallb notQuote b = true ->
  forallb notQuote (a ++ w ++ b) = true.
Proof.
  intros Ha Hw Hb. rewrite !forallb_app, Hb, (notQuoteOrSpace_notQuote _ Ha).
  rewrite notQuote_lower; [reflexivity|]. now rewrite Hw.
Qed.

Lemma idAttribute_unique s v1 p1 v2 p2 :
  idAttribute s v1 p1 -> idAttribute s v2 p2 -> v1 = v2 /\ p1 = p2.
Proof.
  intros (n1 & q1 & a1 & w1 & b1 & e1 & -> & Hn1 & Hq1 & He1 & Ha1 & Hw1 & Hb1 & ->)
         (n2 & q2 & a2 & w2 & b2 & e2 & E & Hn2 & Hq2 & He2 & Ha2 & Hw2 & Hb2 & ->).
  assert (L1 : length n1 = 3) by (rewrite <- (length_map lower), Hn1; reflexivity).
  assert (L2 : length n2 = 3) by (rewrite <- (length_map lower), Hn2; reflexivity).
  destruct n1 as [|x1 [|x2 [|x3 [|? ?]]]]; try discriminate.
  destruct n2 as [|y1 [|y2 [|y3 [|? ?]]]]; try discriminate.
  simpl in E. injection E as _ _ _ _ E.
  assert (E' : (a1 ++ w1 ++ b1) ++ e1 :: p1 = (a2 ++ w2 ++ b2) ++ e2 :: p2)
    by (rewrite <- !app_assoc; exact E).
  destruct (first_split_unique isQuote _ _ _ _ _ _ E') as (E1 & _ & E2); auto;
    try (apply idAttribute_value_notQuote; assumption).
Qed.

Lemma Matches_reviewID s s' c :
  Matches reviewIDPattern s [] s' c <->
  exists v, idAttribute s v s' /\ c = [(1, v)].
Proof.
  unfold reviewIDPattern. split.
  - intros H.
    apply Matches_cat_inv in H as (s1 & c1 & H1 & H).
    apply (Matches_lit_chri (str "id=")) in H1 as (name & -> & Hname & ->).
    apply Matches_cat_inv in H as (s2 & c2 & H2 & H).
    apply Matches_cls_inv in H2 as (q1 & -> & Hq1 & ->).
    apply Matches_cat_inv in H as (s3 & c3 & H3 & H).
    apply Matches_cls_inv in H as (q2 & -> & Hq2 & ->).
    inversion H3 as [| | | | | | | | |i r sa ca sb cb HG]; subst.
    apply Matches_cat_inv in HG as (r1 & d1 & G1 & HG).
    apply Matches_star_cls in G1 as (a & -> & Ha & ->).
    apply Matches_cat_inv in HG as (r2 & d2 & G2 & HG).
    apply (Matches_lit_chri (str "review")) in G2 as (w & -> & Hw & ->).
    apply Matches_cat_inv in HG as (r3 & d3 & G3 & HG).
    apply Matches_star_cls in HG as (b & -> & Hb & ->).
    assert (exists o, r2 = o ++ b ++ q2 :: s' /\ forallb notQuote o = true /\ d3 = [])
      as (o & -> & Ho & ->).
    { inversion G3; subst.
      - match goal with M : Matches (chri _) _ _ _ _ |- _ =>
          apply Matches_cls_inv in M as (x & -> & Hx & ->) end.
        exists [x]. split; [reflexivity|]. split; [|reflexivity].
        apply notQuote_lower. simpl. apply Ascii.eqb_eq in Hx. now rewrite Hx.
      - now exists []. }
    exists (a ++ w ++ o ++ b). split.
    + exists name, q1, a, w, (o ++ b), q2.
      rewrite <- !app_assoc. repeat split; auto.
      now rewrite forallb_app, Ho.
    + f_equal. f_equal.
      replace (a ++ w ++ o ++ b ++ q2 :: s') with ((a ++ w ++ o ++ b) ++ q2 :: s')
        by now rewrite <- !app_assoc.
      apply consumed_app.
  - intros (v & (name & q1 & a & w & b & q2 & -> & Hn & Hq1 & Hq2 & Ha & Hw & Hb & ->) & ->).
    eapply MCat.
    { apply (Matches_lit_chri (str "id=")). exists name.
      split; [reflexivity|]. split; [exact Hn | reflexivity]. }
    eapply MCat; [apply MCls; exact Hq1|].
    eapply MCat; [|apply MCls; exact Hq2].
    replace [(1, a ++ w ++ b)]
      with [(1, consumed (a ++ w ++ b ++ q2 :: s') (q2 :: s'))].
    2:{ f_equal. f_equal.
        replace (a ++ w ++ b ++ q2 :: s') with ((a ++ w ++ b) ++ q2 :: s')
          by now rewrite <- !app_assoc.
        apply consumed_app. }
    apply MGroup.
    eapply MCat; [now apply Matches_star_cls_intro|].
    eapply MCat.
    { apply (Matches_lit_chri (str "review")). exists w.
      split; [reflexivity|]. split; [exact Hw | reflexivity]. }
    eapply MCat; [apply MQuestNo|].
    now apply Matches_star_cls_intro.
Qed.

Lemma matchHere_reviewID_sound s s' c :
  matchHere reviewIDPattern s = Some (s', c) ->
  exists v, idAttribute s v s' /\ c = [(1, v)].
Proof. intros H. now apply Matches_reviewID, matchHere_sound. Qed.

Lemma matchHere_reviewID_complete s v post :
  idAttribute s v post ->
  matchHere reviewIDPattern s = Some (post, [(1, v)]).
Proof.
  intros H.
  assert (M : Matches reviewIDPattern s [] post [(1, v)])
    by (apply Matches_reviewID; eauto).
  destruct (matchHere_complete _ _ _ _ M) as [[s' c] E].
  rewrite E. destruct (matchHere_reviewID_sound _ _ _ E) as (v' & H' & ->).
  destruct (idAttribute_unique _ _ _ _ _ H H') as [-> ->]. reflexivity.
Qed.

(** ** Discovery *)

Lemma leftmost_eq r s :
  leftmost r s =
    match matchHere r s with
    | Some (s', c) => Some (consumed s s', s', c)
    | None => match s with [] => None | _ :: t => leftmost r t end
    end.
Proof. destruct s; reflexivity. Qed.

Lemma matchHere_suffix r s s' c :
  matchHere r s = Some (s', c) -> exists m, s = m ++ s'.
Proof. intros H. eapply Matches_suffix, matchHere_sound, H. Qed.

(** The leftmost match: where it starts, nothing before it matches. *)
Lemma leftmost_here r s s' c :
  matchHere r s = Some (s', c) ->
  exists m, s = m ++ s' /\ leftmost r s = Some (m, s', c).
Proof.
  intros E. destruct (matchHere_suffix _ _ _ _ E) as [m ->].
  exists m. split; [reflexivity|]. now rewrite leftmost_eq, E, consumed_app.
Qed.

Lemma leftmost_Some r : forall s m s' c,
  leftmost r s = Some (m, s', c) ->
  exists skip, s = skip ++ m ++ s'
    /\ matchHere r (m ++ s') = Some (s', c)
    /\ forall u v, skip = u ++ v -> v <> [] -> matchHere r (v ++ m ++ s') = None.
Proof.
  assert (Here : forall s m s' c s1 c1,
             matchHere r s = Some (s1, c1) ->
             leftmost r s = Some (m, s', c) ->
             s = m ++ s' /\ matchHere r (m ++ s') = Some (s', c)).
  { intros s m s' c s1 c1 E H.
    destruct (leftmost_here _ _ _ _ E) as (m1 & -> & L).
    rewrite L in H. injection H as <- <- <-. auto. }
  induction s as [|a s IH]; intros m s' c H.
  - destruct (matchHere r []) as [[s1 c1]|] eqn:E.
    + destruct (Here _ _ _ _ _ _ E H) as [E1 E2]. exists [].
      repeat split; auto. intros u v Hu Hv.
      destruct u, v; try discriminate. contradiction.
    + rewrite leftmost_eq, E in H. discriminate.
  - destruct (matchHere r (a :: s)) as [[s1 c1]|] eqn:E.
    + destruct (Here _ _ _ _ _ _ E H) as [E1 E2]. exists [].
      repeat split; auto. intros u v Hu Hv.
      destruct u, v; try discriminate. contradiction.
    + rewrite leftmost_eq, E in H. apply IH in H as (skip & -> & H1 & H2).
      exists (a :: skip). repeat split; auto.
      intros [|x u] v Hs Hv.
      * simpl in Hs. subst v. exact E.
      * injection Hs as <- ->. now apply (H2 u v).
Qed.

Lemma leftmost_None r : forall u v,
  leftmost r (u ++ v) = None -> matchHere r v = None.
Proof.
  induction u as [|a u IH]; intros v; simpl app; rewrite leftmost_eq.
  - destruct (matchHere r v) as [[? ?]|]; [discriminate | reflexivity].
  - destruct (matchHere r (a :: u ++ v)) as [[? ?]|]; [discriminate|]. apply IH.
Qed.

(** A match of the pattern is not empty. *)
Lemma idAttribute_longer s v post : idAttribute s v post -> length post < length s.
Proof.
  intros (n & q1 & a & w & b & q2 & -> & _). rewrite !length_app. simpl.
  rewrite !length_app. simpl. lia.
Qed.

Lemma allMatches_step fuel m s' v s b :
  leftmost reviewIDPattern s = Some (m, s', [(1, v)]) ->
  m <> [] ->
  allMatches (S fuel) reviewIDPattern 1 s b
  = [m; v] :: allMatches fuel reviewIDPattern 1 s' true.
Proof.
  intros H Hm. simpl. rewrite H. destruct m; [contradiction | reflexivity].
Qed.

(** What the scan does at one step, for this pattern. *)
Lemma scan_step s m s' c :
  leftmost reviewIDPattern s = Some (m, s', c) ->
  exists skip v,
    s = skip ++ m ++ s' /\ m <> [] /\ c = [(1, v)]
    /\ idAttribute (m ++ s') v s'
    /\ forall u w, skip = u ++ w -> w <> [] ->
         matchHere reviewIDPattern (w ++ m ++ s') = None.
Proof.
  intros H. apply leftmost_Some in H as (skip & -> & H1 & H2).
  apply matchHere_reviewID_sound in H1 as (v & H1 & ->).
  exists skip, v. repeat split; auto.
  intros ->. apply idAttribute_longer in H1. simpl in H1. lia.
Qed.

(** Every reported match is an attribute-like occurrence in the text. *)
Lemma allMatches_sound fuel : forall s b m,
  In m (allMatches fuel reviewIDPattern 1 s b) ->
  exists pre rest post,
    s = pre ++ rest /\ idAttribute rest (nth 1 m []) post /\ length m = 2.
Proof.
  induction fuel as [|fuel IH]; intros s b m; [contradiction|].
  destruct (leftmost reviewIDPattern s) as [[[m0 s'] c]|] eqn:E.
  2:{ simpl. rewrite E. contradiction. }
  destruct (scan_step _ _ _ _ E) as (skip & v & -> & Hm & -> & Hid & _).
  rewrite (allMatches_step _ _ _ _ _ _ E Hm).
  intros [<- | H].
  - exists skip, (m0 ++ s'), s'. auto.
  - apply IH in H as (pre & rest & post & -> & H & L).
    exists (skip ++ m0 ++ pre), rest, post.
    rewrite <- !app_assoc. auto.
Qed.

(** An attribute not overlapped by an earlier match is reported. *)
Lemma allMatches_complete n : forall fuel pre s v post b,
  length pre <= n ->
  idAttribute s v post -> clearBefore pre s ->
  length (pre ++ s) < fuel ->
  exists m, In m (allMatches fuel reviewIDPattern 1 (pre ++ s) b) /\ nth 1 m [] = v.
Proof.
  induction n as [|n IH]; intros fuel pre s v post b Hn Hid Hclear Hfuel;
    (destruct fuel as [|fuel]; [lia|]);
    pose proof (matchHere_reviewID_complete _ _ _ Hid) as C.
  - destruct pre; [|simpl in Hn; lia]. cbn [app] in *.
    destruct (leftmost_here _ _ _ _ C) as (m & E & L).
    destruct (scan_step _ _ _ _ L) as (_ & _ & _ & Hm & _).
    erewrite allMatches_step; eauto.
    eexists. split; [left; reflexivity | reflexivity].
  - destruct (leftmost reviewIDPattern (pre ++ s)) as [[[m s'] c]|] eqn:L.
    2:{ apply leftmost_None in L. rewrite C in L. discriminate. }
    destruct (scan_step _ _ _ _ L) as (skip & v' & E & Hm & -> & Hid' & Hnone).
    rewrite (allMatches_step _ _ _ _ _ _ L Hm).
    (* the match starts inside [pre] or exactly at [s] *)
    assert (exists pre2, pre = skip ++ pre2 /\ pre2 ++ s = m ++ s') as (pre2 & -> & E2).
    { apply app_eq_inv in E as [(k & -> & E)|(k & -> & E)].
      - exists k. auto.
      - destruct k as [|x k].
        + exists []. rewrite !app_nil_r. simpl in E. auto.
        + exfalso. rewrite E, (Hnone pre (x :: k) eq_refl) in C; discriminate. }
    rewrite <- E2 in Hid'.
    destruct pre2 as [|x pre2].
    + simpl in *. destruct (idAttribute_unique _ _ _ _ _ Hid Hid') as [-> _].
      eexists. split; [left; reflexivity | reflexivity].
    + assert (Hs : length s <= length s')
        by (eapply (Hclear skip (x :: pre2)); eauto; discriminate).
      (* the rest of the text still ends with [s] *)
      assert (exists pre3, s' = pre3 ++ s /\ x :: pre2 = m ++ pre3)
        as (pre3 & -> & H3).
      { apply app_eq_inv in E2 as [(k & E3 & ->)|(k & -> & E3)].
        - exists k. auto.
        - destruct k as [|y k].
          + exists []. simpl in E3. subst. rewrite !app_nil_r. auto.
          + exfalso. rewrite E3 in Hs. simpl in Hs. rewrite length_app in Hs. lia. }
      assert (L3 : length pre3 < length (x :: pre2)).
      { rewrite H3, length_app. destruct m; [contradiction | simpl; lia]. }
      assert (C3 : clearBefore pre3 s).
      { intros p1 p2 v0 e -> Hp2.
        apply (Hclear (skip ++ m ++ p1) p2); auto.
        rewrite H3, <- !app_assoc. reflexivity. }
      assert (Hn3 : length pre3 <= n).
      { rewrite length_app in Hn. simpl in *. lia. }
      assert (Hf3 : length (pre3 ++ s) < fuel).
      { rewrite H3 in Hfuel. rewrite !length_app in *.
        destruct m; [contradiction | simpl in *; lia]. }
      destruct (IH fuel pre3 s v post true Hn3 Hid C3 Hf3) as (m1 & Hin & Hv).
      exists m1. split; [right; exact Hin | exact Hv].
Qed.

Lemma elem_of_idSetOf v ms :
  v ∈ idSetOf ms <-> exists m, In m ms /\ 1 < length m /\ nth 1 m [] = v.
Proof.
  unfold idSetOf.
  assert (G : forall (acc : gset gostring),
    v ∈ fold_left (fun idSet m =>
                     if Nat.ltb 1 (length m) then {[ nth 1 m [] ]} ∪ idSet else idSet)
                  ms acc
    <-> v ∈ acc \/ exists m, In m ms /\ 1 < length m /\ nth 1 m [] = v).
  { induction ms as [|m ms IH]; intros acc; simpl.
    - split; [auto | intros [H|(m & [] & _)]; exact H].
    - rewrite IH. destruct (Nat.ltb_spec 1 (length m)) as [Hl|Hl].
      + rewrite elem_of_union, elem_of_singleton. split.
        * intros [[->|H]|(m' & H1 & H2)]; eauto 6.
        * intros [H|(m' & [<-|H1] & H2 & H3)]; eauto 6.
      + split.
        * intros [H|(m' & H1 & H2)]; eauto 6.
        * intros [H|(m' & [<-|H1] & H2 & H3)]; eauto 6. lia. }
  rewrite G. split; [intros [H|H]; [set_solver | exact H] | auto].
Qed.

Section Discovery.
Context `{RT : Runtime}.

Lemma call_fst {A} (op : World -> A * World) s : (call op s).1 = (op (world s)).1.
Proof. unfold call. now destruct (op (world s)). Qed.

Lemma findReviewIDs_perm html s :
  (findReviewIDs html s).1
  ≡ₚ elements (idSetOf (FindAllStringSubmatch reviewIDPattern 1 html)).
Proof. unfold findReviewIDs. rewrite call_fst. apply map_range_perm. Qed.

Lemma findReviewIDs_NoDup html s : NoDup (findReviewIDs html s).1.
Proof. rewrite findReviewIDs_perm. apply NoDup_elements. Qed.

Lemma findReviewIDs_In html s v :
  In v (findReviewIDs html s).1
  <-> exists m, In m (FindAllStringSubmatch reviewIDPattern 1 html)
                /\ 1 < length m /\ nth 1 m [] = v.
Proof.
  rewrite <- elem_of_idSetOf, <- elem_of_elements, <- list_elem_of_In.
  now rewrite findReviewIDs_perm.
Qed.

(** Discovery reports only values of attribute-like occurrences. *)
Lemma findReviewIDs_sound html s v :
  In v (findReviewIDs html s).1 ->
  exists pre rest post, html = pre ++ rest /\ idAttribute rest v post.
Proof.
  rewrite findReviewIDs_In. intros (m & Hin & _ & <-).
  apply allMatches_sound in Hin as (pre & rest & post & -> & H & _). eauto.
Qed.

(** Discovery reports every attribute that no earlier match runs
    into. *)
Lemma findReviewIDs_complete pre s v post st :
  idAttribute s v post -> clearBefore pre s ->
  In v (findReviewIDs (pre ++ s) st).1.
Proof.
  intros Hid Hclear. rewrite findReviewIDs_In.
  destruct (allMatches_complete (length pre) (S (length (pre ++ s))) pre s v post false)
    as (m & Hin & Hv); auto.
  exists m. repeat split; auto.
  apply allMatches_sound in Hin as (_ & _ & _ & _ & _ & ->). lia.
Qed.
End Discovery.

(** Text without quotes cannot hold the start of a match. *)
Lemma clearBefore_notQuote pre s v post :
  forallb notQuote pre = true -> idAttribute s v post -> clearBefore pre s.
Proof.
  intros Hpre (n & q1 & a & w & b & q2 & -> & Hn & Hq1 & _) p1 p2 v' e -> Hp2
         (n' & q1' & a' & w' & b' & q2' & E & Hn' & Hq1' & _).
  exfalso.
  rewrite forallb_app in Hpre. apply andb_true_iff in Hpre as [_ Hpre].
  assert (L : length n = 3) by (rewrite <- (length_map lower), Hn; reflexivity).
  assert (L' : length n' = 3) by (rewrite <- (length_map lower), Hn'; reflexivity).
  destruct n as [|x1 [|x2 [|x3 [|? ?]]]]; try discriminate.
  destruct n' as [|y1 [|y2 [|y3 [|? ?]]]]; try discriminate.
  injection Hn as N1 N2 N3.
  assert (Q : forall x, isQuote x = true -> lower x <> "i"%char /\ lower x <> "d"%char
                                          /\ lower x <> "="%char).
  { intros x Hx. rewrite (lower_quote _ Hx). unfold isQuote in Hx.
    apply orb_true_iff in Hx as [Hx|Hx]; apply Ascii.eqb_eq in Hx; subst;
      repeat split; discriminate. }
  destruct (Q _ Hq1') as (Q1 & Q2 & Q3).
  destruct p2 as [|z1 [|z2 [|z3 [|z4 p2]]]]; [contradiction| | | |];
    simpl in E; injection E as E1 E2 E3 E4; subst; try congruence.
  simpl in Hpre. unfold notQuote in Hpre at 4. rewrite Hq1' in Hpre.
  simpl in Hpre. rewrite !andb_false_r in Hpre. discriminate.
Qed.

(** ** The greedy dot-star of the JSON pattern *)


Section Greedy.
Context {R : Type}.
Variable k : gostring -> caps -> option R.

Lemma starLoop_any_cons n a t c :
  starLoop (mtch (Cls anyChar)) k (S n) (a :: t) c
  = match starLoop (mtch (Cls anyChar)) k n t c with
    | Some x => Some x
    | None => k (a :: t) c
    end.
Proof.
  cbn [starLoop mtch]. unfold anyChar at 1.
  destruct (Nat.ltb_spec (length t) (length (a :: t))) as [_|H];
    [reflexivity | simpl in H; lia].
Qed.

Lemma star_any_none : forall t c,
  (forall u v, t = u ++ v -> k v c = None) ->
  starLoop (mtch (Cls anyChar)) k (length t) t c = None.
Proof.
  induction t as [|a t IH]; intros c H.
  - apply (H [] []). reflexivity.
  - cbn [length]. rewrite starLoop_any_cons, IH.
    + apply (H [] (a :: t)). reflexivity.
    + intros u v ->. apply (H (a :: u) v). reflexivity.
Qed.

(** The repetition hands over at the last place where the rest of
    the pattern succeeds. *)
Lemma star_any_last : forall t1 t2 c x,
  k t2 c = Some x ->
  (forall u v, t2 = u ++ v -> u <> [] -> k v c = None) ->
  starLoop (mtch (Cls anyChar)) k (length (t1 ++ t2)) (t1 ++ t2) c = Some x.
Proof.
  induction t1 as [|a t1 IH]; intros t2 c x Hk Hlater.
  - cbn [app]. destruct t2 as [|b t2]; [exact Hk|].
    cbn [length]. rewrite starLoop_any_cons, star_any_none; [exact Hk|].
    intros u v ->. apply (Hlater (b :: u) v); [reflexivity | discriminate].
  - cbn [app length]. now rewrite starLoop_any_cons, (IH t2 c x).
Qed.
End Greedy.


Lemma matchHere_json_head a t :
  a <> openBr -> matchHere jsonPattern (a :: t) = None.
Proof.
  intros H. unfold matchHere, jsonPattern, chr. cbn [mtch].
  destruct (Ascii.eqb_spec "["%char a) as [E|E]; [|reflexivity].
  subst. contradiction.
Qed.

Lemma matchHere_json_nil : matchHere jsonPattern [] = None.
Proof. reflexivity. Qed.

(** From an opening bracket the match runs to the last closing one. *)
Lemma matchHere_json_greedy mid post :
  ~ In closeBr post ->
  matchHere jsonPattern (openBr :: mid ++ closeBr :: post) = Some (post, []).
Proof.
  intros Hpost. unfold matchHere, jsonPattern, chr.
  cbn [mtch]. rewrite Ascii.eqb_refl.
  change (fun _ : ascii => true) with anyChar.
  apply star_any_last.
  - cbn [mtch]. unfold closeBr. now rewrite Ascii.eqb_refl.
  - intros u v E Hu. cbn [mtch]. destruct v as [|b v]; [reflexivity|].
    destruct (Ascii.eqb_spec "]"%char b) as [<-|]; [|reflexivity].
    exfalso. apply Hpost. destruct u as [|? u]; [contradiction|].
    injection E as _ ->. apply in_or_app. right. now left.
Qed.

Lemma matchHere_json_sound s s' c :
  matchHere jsonPattern s = Some (s', c) ->
  exists mid, s = openBr :: mid ++ closeBr :: s' /\ c = [].
Proof.
  intros H. apply matchHere_sound in H. unfold jsonPattern, chr in H.
  apply Matches_cat_inv in H as (s1 & c1 & H1 & H).
  apply Matches_cls_inv in H1 as (a & -> & Ha & ->).
  apply Matches_cat_inv in H as (s2 & c2 & H2 & H).
  apply Matches_star_cls in H2 as (mid & -> & _ & ->).
  apply Matches_cls_inv in H as (b & -> & Hb & ->).
  apply Ascii.eqb_eq in Ha, Hb. subst. now exists mid.
Qed.

(** [FindString] on a reply whose only brackets outside the array are
    closing ones before it and opening ones after it. *)
Lemma FindString_json pre mid post :
  ~ In openBr pre -> ~ In closeBr post ->
  FindString jsonPattern (pre ++ openBr :: mid ++ closeBr :: post)
  = openBr :: mid ++ [closeBr].
Proof.
  intros Hpre Hpost. unfold FindString.
  induction pre as [|a pre IH].
  - simpl app. rewrite leftmost_eq, matchHere_json_greedy by exact Hpost.
    replace (openBr :: mid ++ closeBr :: post)
      with ((openBr :: mid ++ [closeBr]) ++ post)
      by (simpl; now rewrite <- app_assoc).
    now rewrite consumed_app.
  - simpl app. rewrite leftmost_eq, matchHere_json_head.
    + apply IH. intros H. apply Hpre. now right.
    + intros ->. apply Hpre. now left.
Qed.

(** No match: the reply has no opening bracket followed by a closing
    one. *)
Lemma FindString_json_empty s :
  FindString jsonPattern s = [] <->
  ~ exists pre mid post, s = pre ++ openBr :: mid ++ closeBr :: post.
Proof.
  unfold FindString. split.
  - intros H (pre & mid & post & ->).
    destruct (leftmost jsonPattern _) as [[[m s'] c]|] eqn:L.
    + subst m. apply leftmost_Some in L as (_ & _ & L & _).
      apply matchHere_json_sound in L as (? & L & _).
      apply (f_equal length) in L. simpl in L. rewrite length_app in L.
      simpl in L. lia.
    + apply leftmost_None in L.
      assert (M : Matches jsonPattern (openBr :: mid ++ closeBr :: post) [] post []).
      { unfold jsonPattern, chr. eapply MCat; [constructor; apply Ascii.eqb_refl|].
        eapply MCat; [apply Matches_star_cls_intro with (run := mid)|].
        - clear. induction mid; simpl; auto.
        - constructor. apply Ascii.eqb_refl. }
      destruct (matchHere_complete _ _ _ _ M) as [y Hy]. congruence.
  - intros H. destruct (leftmost jsonPattern s) as [[[m s'] c]|] eqn:L; [|reflexivity].
    exfalso. apply H. apply leftmost_Some in L as (skip & -> & L & _).
    destruct (matchHere_suffix _ _ _ _ L) as [m' E].
    apply matchHere_json_sound in L as (mid & L & _).
    exists skip, mid, s'. now rewrite L.
Qed.

(** ** Subtree isolation *)

Lemma Node_ind' (P : Node -> Prop) :
  (forall t d a cs, Forall P cs -> P (mkNode t d a cs)) -> forall n, P n.
Proof.
  intros H. fix IH 1. intros [t d a cs]. apply H.
  induction cs as [|c cs IHcs]; constructor; [apply IH | exact IHcs].
Qed.

Lemma fold_traverse_override id cs :
  Forall (fun c => forall sec, traverse id c sec = override (traverse id c None) sec) cs ->
  forall sec,
    fold_left (fun sec c => traverse id c sec) cs sec
    = override (fold_left (fun sec c => traverse id c sec) cs None) sec.
Proof.
  induction 1 as [|c cs Hc _ IH]; intros sec; simpl; [reflexivity|].
  rewrite (IH (traverse id c sec)), (IH (traverse id c None)), Hc.
  destruct (fold_left _ cs None), (traverse id c None); reflexivity.
Qed.

Lemma traverse_override id n : forall sec,
  traverse id n sec = override (traverse id n None) sec.
Proof.
  induction n as [t d a cs IH] using Node_ind'. intros sec. simpl.
  destruct (NodeType_eqb t ElementNode && attrLoop a id); [reflexivity|].
  now apply fold_traverse_override.
Qed.

Lemma traverse_children id t d a cs :
  hasID id (mkNode t d a cs) = false ->
  traverse id (mkNode t d a cs) None
  = fold_right (fun c acc => override acc (traverse id c None)) None cs.
Proof.
  unfold hasID; simpl. intros ->.
  assert (G : forall sec,
    fold_left (fun sec c => traverse id c sec) cs sec
    = override (fold_right (fun c acc => override acc (traverse id c None)) None cs) sec).
  { induction cs as [|c cs IH]; intros sec; simpl; [reflexivity|].
    rewrite IH, (traverse_override id c sec).
    destruct (fold_right _ None cs), (traverse id c None); reflexivity. }
  rewrite G. now destruct (fold_right _ None cs).
Qed.

(** Nothing is found exactly when no element carries the identifier. *)
Lemma traverse_None id n :
  traverse id n None = None <-> Forall (fun m => hasID id m = false) (subtrees n).
Proof.
  induction n as [t d a cs IH] using Node_ind'.
  destruct (hasID id (mkNode t d a cs)) eqn:E.
  - split.
    + unfold hasID in E; simpl in *. rewrite E. discriminate.
    + intros H. cbn [subtrees] in H. apply List.Forall_inv in H. congruence.
  - rewrite traverse_children by exact E. simpl.
    rewrite Forall_cons. split.
    + intros H. split; [exact E|]. clear E.
      induction IH as [|c cs Hc _ IHcs]; simpl in *; [constructor|].
      destruct (fold_right _ None cs) eqn:F; [discriminate|]. simpl in H.
      apply Forall_app. split; [now apply Hc | now apply IHcs].
    + intros [_ H]. clear E.
      induction IH as [|c cs Hc _ IHcs]; simpl in *; [reflexivity|].
      apply Forall_app in H as [H1 H2].
      rewrite IHcs by exact H2. simpl. now apply Hc.
Qed.

(** What is found is an element of the document carrying the
    identifier. *)
Lemma traverse_Some id n m :
  traverse id n None = Some m -> In m (subtrees n) /\ hasID id m = true.
Proof.
  revert m. induction n as [t d a cs IH] using Node_ind'. intros m.
  destruct (hasID id (mkNode t d a cs)) eqn:E.
  - unfold hasID in E; simpl in *. rewrite E. intros [= <-].
    split; [now left | exact E].
  - rewrite traverse_children by exact E. clear E.
    assert (G : fold_right (fun c acc => override acc (traverse id c None)) None cs = Some m ->
                In m (flat_map subtrees cs) /\ hasID id m = true).
    { induction IH as [|c cs Hc _ IHcs]; simpl; [discriminate|].
      destruct (fold_right _ None cs) eqn:F; simpl.
      + intros [= <-]. destruct (IHcs eq_refl) as [H H2].
        split; [apply in_or_app; now right | exact H2].
      + intros H. destruct (Hc _ H) as [H1 H2].
        split; [apply in_or_app; now left | exact H2]. }
    intros H. destruct (G H) as [H1 H2]. split; [right; exact H1 | exact H2].
Qed.

Lemma extractSectionByID_None doc id :
  extractSectionByID doc id = None
  <-> forall n, In n (subtrees doc) -> hasID id n = false.
Proof. unfold extractSectionByID. now rewrite traverse_None, List.Forall_forall. Qed.

Lemma extractSectionByID_notfound_agrees doc id :
  extractSectionByID doc id = None <-> firstByID doc id = None.
Proof.
  rewrite extractSectionByID_None. unfold firstByID. split.
  - intros H. destruct (List.find _ _) eqn:F; [|reflexivity].
    apply List.find_some in F as [F1 F2]. rewrite (H _ F1) in F2. discriminate.
  - intros H n Hn. destruct (hasID id n) eqn:E; [|reflexivity].
    pose proof (List.find_none _ _ H _ Hn). congruence.
Qed.

(** With a single carrier of the identifier, isolation returns it. *)
Lemma extractSectionByID_unique doc id n :
  In n (subtrees doc) -> hasID id n = true ->
  (forall m, In m (subtrees doc) -> hasID id m = true -> m = n) ->
  extractSectionByID doc id = Some n /\ firstByID doc id = Some n.
Proof.
  intros Hin Hid Huniq. split.
  - destruct (extractSectionByID doc id) as [m|] eqn:E.
    + apply traverse_Some in E as [E1 E2]. f_equal. now apply Huniq.
    + rewrite extractSectionByID_None in E. rewrite (E _ Hin) in Hid. discriminate.
  - unfold firstByID. destruct (List.find _ _) as [m|] eqn:E.
    + apply List.find_some in E as [E1 E2]. f_equal. now apply Huniq.
    + pose proof (List.find_none _ _ E _ Hin). congruence.
Qed.


(** C3: with two sibling elements carrying the same id the traversal
    returns the last of them in document order, where the first one is
    asked for.  (Not-found is signalled exactly when no element carries
    the identifier, and a single carrier is returned: see
    [extractSectionByID_None] and [extractSectionByID_unique].) *)
Theorem duplicate_id_returns_last_match :
  extractSectionByID duplicateIDs (str "reviews") = Some secondSection
  /\ firstByID duplicateIDs (str "reviews") = Some firstSection
  /\ firstSection <> secondSection.
Proof. repeat split; discriminate. Qed.

(** C7: the stand-alone program's discovery lists an id value once per
    occurrence in the markup, so the same candidate is processed twice.
    (The server's discovery never repeats a value: see
    [findReviewIDs_NoDup].) *)
Theorem main_findReviewIDs_repeats_id :
  MainGo.findReviewIDs (str "<a id='review'><b id='review'>")
  = [str "review"; str "review"]
  /\ ~ NoDup (MainGo.findReviewIDs (str "<a id='review'><b id='review'>")).
Proof.
  split; [vm_compute; reflexivity|].
  intros H. vm_compute in H. apply NoDup_cons in H as [H _].
  apply H. left.
Qed.

(** ** Extraction and the processing of a page *)

Section Extraction.
Context `{RT : Runtime}.

Lemma call_eq {A} (op : World -> A * World) s :
  call op s = ((op (world s)).1, withWorld s (op (world s)).2).
Proof. unfold call, withWorld. now destruct (op (world s)). Qed.

(** The four ways the extraction ends. *)
Lemma extract_cases sectionHTML s :
  let r := llms_GenerateFromSinglePrompt (prompt sectionHTML) callOptions (world s) in
  extractReviewDataUsingLLM sectionHTML s =
    (match r.1 with
     | Err err => Err (str "failed to generate completion: " ++ err)
     | Ok response =>
         match FindString jsonPattern response with
         | [] => Err (str "failed to extract JSON from response")
         | a :: m =>
             match json_Unmarshal (a :: m) with
             | Err err => Err (str "failed to parse review JSON: " ++ err)
             | Ok reviews => Ok reviews
             end
         end
     end, withWorld s r.2).
Proof.
  intros r. unfold extractReviewDataUsingLLM, bind. rewrite call_eq.
  fold r. destruct r.1 as [response|err]; [|reflexivity].
  destruct (FindString jsonPattern response) as [|a m]; [reflexivity|].
  now destruct (json_Unmarshal (a :: m)).
Qed.

(** The extraction changes nothing but the world. *)
Lemma extract_state sectionHTML s :
  (extractReviewDataUsingLLM sectionHTML s).2
  = withWorld s (llms_GenerateFromSinglePrompt (prompt sectionHTML) callOptions (world s)).2.
Proof. now rewrite extract_cases. Qed.

(** A reply without an array literal: an extraction error. *)
Lemma extract_no_array sectionHTML s response w' :
  llms_GenerateFromSinglePrompt (prompt sectionHTML) callOptions (world s)
    = (Ok response, w') ->
  (~ exists pre mid post, response = pre ++ openBr :: mid ++ closeBr :: post) ->
  extractReviewDataUsingLLM sectionHTML s
    = (Err (str "failed to extract JSON from response"), withWorld s w').
Proof.
  intros H Hno. rewrite extract_cases, H. simpl.
  apply FindString_json_empty in Hno. now rewrite Hno.
Qed.

(** An array literal that does not decode: a parse error. *)
Lemma extract_bad_array sectionHTML s pre mid post err w' :
  llms_GenerateFromSinglePrompt (prompt sectionHTML) callOptions (world s)
    = (Ok (pre ++ openBr :: mid ++ closeBr :: post), w') ->
  ~ In openBr pre -> ~ In closeBr post ->
  json_Unmarshal (openBr :: mid ++ [closeBr]) = Err err ->
  extractReviewDataUsingLLM sectionHTML s
    = (Err (str "failed to parse review JSON: " ++ err), withWorld s w').
Proof.
  intros H Hpre Hpost Hj. rewrite extract_cases, H. simpl.
  rewrite FindString_json by assumption. now rewrite Hj.
Qed.

(** C8 (amended): when the reply holds an array literal with no
    opening bracket before it and no closing bracket after it, and
    that literal decodes to the records [rs], the extractor returns
    exactly [rs]. *)
Theorem array_between_brackets_is_extracted sectionHTML s pre mid post rs w' :
  llms_GenerateFromSinglePrompt (prompt sectionHTML) callOptions (world s)
    = (Ok (pre ++ openBr :: mid ++ closeBr :: post), w') ->
  ~ In openBr pre -> ~ In closeBr post ->
  json_Unmarshal (openBr :: mid ++ [closeBr]) = Ok rs ->
  extractReviewDataUsingLLM sectionHTML s = (Ok rs, withWorld s w').
Proof.
  intros H Hpre Hpost Hj. rewrite extract_cases, H. simpl.
  rewrite FindString_json by assumption. now rewrite Hj.
Qed.

(** *** Processing one page *)

Lemma processSection_cases doc id s :
  processSection doc id s =
    match extractSectionByID doc id with
    | None =>
        (tt, mkState (world s)
                     (logs s ++ [str "Section with id " ++ id ++ str " not found"])
                     (stdout s) (allReviews s))
    | Some section =>
        let (r, s1) := extractReviewDataUsingLLM (renderNodeToString section) s in
        match r with
        | Err err =>
            (tt, mkState (world s1)
                         (logs s ++ [str "Error extracting reviews for section " ++ id
                                       ++ str ": " ++ err])
                         (stdout s) (allReviews s))
        | Ok reviews =>
            (tt, mkState (world s1) (logs s) (stdout s) (allReviews s ++ reviews))
        end
    end.
Proof.
  unfold processSection. destruct (extractSectionByID doc id) as [section|];
    [|reflexivity].
  unfold bind. rewrite extract_cases. cbv zeta.
  destruct (llms_GenerateFromSinglePrompt _ _ _) as [r w']. simpl.
  destruct r as [response|err]; [|reflexivity].
  destruct (FindString jsonPattern response) as [|a m]; [reflexivity|].
  now destruct (json_Unmarshal (a :: m)).
Qed.

(** A section only ever appends its yield. *)
Lemma processSection_appends doc id s :
  allReviews (processSection doc id s).2 = allReviews s ++ sectionYield doc id s.
Proof.
  rewrite processSection_cases. unfold sectionYield.
  destruct (extractSectionByID doc id) as [section|]; simpl;
    [|now rewrite app_nil_r].
  destruct (extractReviewDataUsingLLM _ s) as [[reviews|err] s1]; simpl;
    [reflexivity | now rewrite app_nil_r].
Qed.

Lemma processSections_appends doc ids : forall s,
  allReviews (processSections doc ids s).2
  = allReviews s ++ flat_map snd (sectionsYield doc ids s).
Proof.
  induction ids as [|id ids IH]; intros s; simpl.
  - now rewrite app_nil_r.
  - unfold bind. destruct (processSection doc id s) as [[] s1] eqn:E.
    rewrite IH. replace s1 with (processSection doc id s).2 by now rewrite E.
    rewrite processSection_appends, <- app_assoc. now rewrite E.
Qed.

Lemma sectionsYield_ids doc ids : forall s,
  map fst (sectionsYield doc ids s) = ids.
Proof. induction ids as [|id ids IH]; intros s; simpl; [|rewrite IH]; reflexivity. Qed.

Lemma findReviewIDs_state html s :
  allReviews (findReviewIDs html s).2 = allReviews s.
Proof. unfold findReviewIDs. now rewrite call_eq. Qed.

Lemma processPage_appends pageSource s :
  allReviews (processPage pageSource s).2
  = allReviews s ++ flat_map snd (pageYield pageSource s).
Proof.
  unfold processPage, pageYield, bind.
  pose proof (findReviewIDs_state pageSource s) as Hst.
  destruct (findReviewIDs pageSource s) as [ids s1]. simpl in Hst.
  destruct ids as [|id ids].
  - simpl. destruct (html_Parse pageSource); simpl; now rewrite app_nil_r, Hst.
  - destruct (html_Parse pageSource) as [doc|err].
    + destruct (processSections doc (id :: ids) s1) as [[] s2] eqn:E. simpl.
      replace s2 with (processSections doc (id :: ids) s1).2 by now rewrite E.
      now rewrite processSections_appends, Hst.
    + simpl. now rewrite app_nil_r, Hst.
Qed.

End Extraction.

(** ** The pagination loop *)

Lemma gostring_eqb_eq (a b : gostring) : gostring_eqb a b = true <-> a = b.
Proof.
  revert b; induction a as [|x a IH]; intros [|y b]; simpl; split; try congruence; try discriminate.
  - intros H. apply andb_true_iff in H as [H1 H2]. apply Ascii.eqb_eq in H1. apply IH in H2. congruence.
  - intros [= -> ->]. rewrite Ascii.eqb_refl. simpl. now apply IH.
Qed.

Lemma gostring_eqb_refl (a : gostring) : gostring_eqb a a = true.
Proof. now apply gostring_eqb_eq. Qed.

Lemma gostring_eqb_neq (a b : gostring) : gostring_eqb a b = false <-> a <> b.
Proof.
  rewrite <- gostring_eqb_eq. destruct (gostring_eqb a b); split; congruence.
Qed.

Section Pagination.
Context `{RT : Runtime}.
Variable pp : gostring -> M (option error).

(** The scroll branch, once reached with a successful second fetch. *)
Lemma iteration_scroll prev s src s1 s2 s3 s4 new s5 :
  call driver_PageSource s = (Ok src, s1) ->
  pp src s1 = (None, s2) ->
  findNextButton nextSelectors s2 = (None, s3) ->
  call (driver_ExecuteScript scrollScript) s3 = (None, s4) ->
  call driver_PageSource (sleep (2 * Second) s4).2 = (Ok new, s5) ->
  iteration pp prev s =
    (if gostring_eqb new prev then Stagnant new else Scrolled new, s5).
Proof.
  intros H1 H2 H3 H4 H5. unfold iteration, bind.
  rewrite H1, H2, H3, H4.
  destruct (sleep (2 * Second) s4) as [[] s4'] eqn:E. simpl in H5.
  rewrite H5. now destruct (gostring_eqb new prev).
Qed.

(** What the comparison in the loop tests: a pass that finds no control
    and scrolls ends the loop exactly when the markup fetched after the
    scroll equals [prevPageSource], which is the markup fetched after
    the previous scroll (the empty text before the first one); the
    markup processed at the top of the pass plays no role in it. *)
Theorem scroll_done_iff_baseline prev s src s1 s2 s3 s4 new s5 :
  call driver_PageSource s = (Ok src, s1) ->
  pp src s1 = (None, s2) ->
  findNextButton nextSelectors s2 = (None, s3) ->
  call (driver_ExecuteScript scrollScript) s3 = (None, s4) ->
  call driver_PageSource (sleep (2 * Second) s4).2 = (Ok new, s5) ->
  (iteration pp prev s = (Stagnant new, s5) <-> new = prev)
  /\ (new = prev -> forall fuel, paginate (S fuel) pp prev s = (Some None, s5))
  /\ (new <> prev -> forall fuel,
        iteration pp prev s = (Scrolled new, s5)
        /\ paginate (S fuel) pp prev s = paginate fuel pp new s5).
Proof.
  intros H1 H2 H3 H4 H5.
  pose proof (iteration_scroll prev _ _ _ _ _ _ _ _ H1 H2 H3 H4 H5) as Hit.
  split; [|split].
  - rewrite Hit. destruct (gostring_eqb new prev) eqn:E.
    + apply gostring_eqb_eq in E. tauto.
    + apply gostring_eqb_neq in E. split; [discriminate | tauto].
  - intros -> fuel. simpl. unfold bind at 1. rewrite Hit, gostring_eqb_refl. reflexivity.
  - intros Hne fuel. apply gostring_eqb_neq in Hne. rewrite Hne in Hit.
    split; [exact Hit|]. simpl. unfold bind at 1. now rewrite Hit.
Qed.








Lemma outcomes_length fuel prev s : length (outcomes fuel pp prev s) <= fuel.
Proof.
  revert prev s; induction fuel as [|fuel IH]; intros prev s; simpl; [lia|].
  destruct (iteration pp prev s) as [o s']. destruct o; simpl; try lia.
  - specialize (IH prev s'); lia.
  - specialize (IH newPageSource s'); lia.
Qed.




End Pagination.






(** A site on which the loop never returns: every pass finds the next
    link, clicks it and starts over. *)
Lemma loopSite_pass w l :
  @iteration (runtime loopSite) processPage [] (mkState w l [] [])
  = (Clicked, mkState (S w) (l ++ [str "No review sections found"]) [] []).
Proof. lazy. reflexivity. Qed.

Lemma loopSite_never_returns fuel : forall w l,
  (@handlePagination (runtime loopSite) fuel processPage (mkState w l [] [])).1 = None.
Proof.
  unfold handlePagination.
  induction fuel as [|fuel IH]; intros w l; [reflexivity|].
  cbn [paginate]. unfold bind at 1. rewrite loopSite_pass. apply IH.
Qed.

(** ** A whole run *)

Section Run.
Context `{RT : Runtime}.

Lemma call_allReviews {A} (op : World -> A * World) s :
  allReviews (call op s).2 = allReviews s.
Proof. now rewrite call_eq. Qed.

Lemma findNextButton_allReviews selectors : forall s,
  allReviews (findNextButton selectors s).2 = allReviews s.
Proof.
  induction selectors as [|sel rest IH]; intros s; simpl; [reflexivity|].
  unfold bind. pose proof (call_allReviews (driver_FindElement ByCSSSelector sel) s) as H.
  destruct (call (driver_FindElement ByCSSSelector sel) s) as [[b|e] s1]; simpl in *.
  - exact H.
  - now rewrite IH.
Qed.

(** One pass appends the yield of the page it processed and nothing
    else. *)
Lemma iteration_appends prev s :
  allReviews (iteration processPage prev s).2
  = allReviews s
      ++ match call driver_PageSource s with
         | (Ok pageSource, s1) => flat_map snd (pageYield pageSource s1)
         | (Err _, _) => []
         end.
Proof.
  unfold iteration, bind.
  pose proof (call_allReviews driver_PageSource s) as H0.
  destruct (call driver_PageSource s) as [[src|e] s1]; simpl in H0;
    [|simpl; now rewrite app_nil_r].
  pose proof (processPage_appends src s1) as H1.
  destruct (processPage src s1) as [[err|] s2]; simpl in H1;
    [simpl; congruence|].
  rewrite <- H0, <- H1. clear H0 H1.
  pose proof (findNextButton_allReviews nextSelectors s2) as H2.
  destruct (findNextButton nextSelectors s2) as [[b|] s3]; simpl in H2; rewrite <- H2.
  - pose proof (call_allReviews (element_Click b) s3) as H3.
    destruct (call (element_Click b) s3) as [[e|] s4]; simpl in *; exact H3.
  - pose proof (call_allReviews (driver_ExecuteScript scrollScript) s3) as H3.
    destruct (call (driver_ExecuteScript scrollScript) s3) as [[e|] s4];
      simpl in H3; [exact H3|].
    rewrite <- H3. simpl.
    pose proof (call_allReviews driver_PageSource
                  (mkState (time_Sleep (2 * Second) (world s4)) (logs s4)
                           (stdout s4) (allReviews s4))) as H4.
    destruct (call driver_PageSource _) as [[new|e] s5]; simpl in *; [|exact H4].
    now destruct (gostring_eqb new prev).
Qed.

Lemma paginate_appends fuel : forall prev s,
  allReviews (paginate fuel processPage prev s).2
  = allReviews s ++ reviewsOf (runYield fuel prev s).
Proof.
  induction fuel as [|fuel IH]; intros prev s; simpl.
  - now rewrite app_nil_r.
  - unfold bind at 1. pose proof (iteration_appends prev s) as H.
    assert (Hfail : forall e s1, call driver_PageSource s = (Err e, s1) ->
              exists err, (iteration processPage prev s).1 = Failed err).
    { intros e s1 E. unfold iteration, bind. rewrite E. simpl. eauto. }
    destruct (call driver_PageSource s) as [[src|e] s1] eqn:E0.
    + destruct (iteration processPage prev s) as [o s'] eqn:E. simpl in H.
      unfold reviewsOf in *. cbn [flat_map snd].
      destruct o; simpl; rewrite ?IH, H, <- ?app_assoc, ?app_nil_r; reflexivity.
    + destruct (Hfail e s1 eq_refl) as [err Herr].
      destruct (iteration processPage prev s) as [o s'] eqn:E. simpl in *.
      subst o. simpl. now rewrite H.
Qed.

(** Every page of a run lists candidates that discovery reported for
    its snapshot, each once. *)
Lemma pageYield_ids pageSource s :
  NoDup (map fst (pageYield pageSource s))
  /\ forall id, In id (map fst (pageYield pageSource s)) ->
       exists pre rest post, pageSource = pre ++ rest /\ idAttribute rest id post.
Proof.
  unfold pageYield.
  pose proof (findReviewIDs_NoDup pageSource s) as Hnd.
  pose proof (findReviewIDs_sound pageSource s) as Hs.
  destruct (findReviewIDs pageSource s) as [ids s1]. simpl in *.
  destruct (html_Parse pageSource) as [doc|e].
  - rewrite sectionsYield_ids. auto.
  - simpl. split; [constructor | contradiction].
Qed.

Lemma runYield_pages fuel : forall prev s,
  Forall (fun p =>
            NoDup (map fst p.2)
            /\ forall id, In id (map fst p.2) ->
                 exists pre rest post, p.1 = pre ++ rest /\ idAttribute rest id post)
         (runYield fuel prev s).
Proof.
  induction fuel as [|fuel IH]; intros prev s; simpl; [constructor|].
  destruct (call driver_PageSource s) as [[src|e] s1]; [|constructor].
  constructor; [apply pageYield_ids|].
  destruct (iteration processPage prev s) as [[| | |] s']; auto; constructor.
Qed.

(** C2 (amended): the reviews returned are the yields of the
    processed snapshots in the order of the passes, and within one
    snapshot the yields of its candidates in the order in which
    discovery listed them (each reported candidate once), which is the
    order the runtime chose for the range over the set of identifiers
    and need not be their order in the markup. *)
Theorem reviews_follow_processing_order fuel url s rs s' :
  ScrapeReviews fuel url s = (Some (Ok rs), s') ->
  rs = reviewsOf (runYield fuel [] (afterSetup url s))
  /\ Forall (fun p =>
               NoDup (map fst p.2)
               /\ forall id, In id (map fst p.2) ->
                    exists pre rest post,
                      p.1 = pre ++ rest /\ idAttribute rest id post)
            (runYield fuel [] (afterSetup url s)).
Proof.
  intros H. split; [|apply runYield_pages].
  unfold ScrapeReviews, afterSetup, bind in *. cbv zeta.
  destruct (call (driver_Get url) s) as [[e|] s1]; [discriminate|].
  cbn [snd] in *.
  destruct (call (driver_SetImplicitWaitTimeout pageLoadTimeout) s1) as [[e|] s2];
    [discriminate|].
  cbn [snd] in *. destruct (declareAllReviews s2) as [[] s3] eqn:D.
  assert (A3 : allReviews s3 = []) by (injection D as <-; reflexivity).
  cbn [snd]. pose proof (paginate_appends fuel [] s3) as P.
  unfold handlePagination in H.
  destruct (paginate fuel processPage [] s3) as [[[e|]|] s4]; try discriminate.
  simpl in *. injection H as <- <-. now rewrite P, A3.
Qed.
End Run.


(** C2, counterexample: two runs over the same snapshots with the same
    replies, which differ only in the order the runtime gives to the
    range over the two identifiers, return the two reviews in opposite
    orders; in one of them the order is not that of the markup. *)
Lemma range_order_changes_output : ~ output_fixed_by_pages_and_replies.
Proof.
  intros H.
  specialize (H (twoSectionSite false) (twoSectionSite true) 5 []
                eq_refl eq_refl eq_refl eq_refl eq_refl eq_refl).
  vm_compute in H. discriminate H.
Qed.

(** C2, witness: the run over the page with two sections. *)
Lemma reviews_follow_processing_order_witness :
  let RT := runtime (twoSectionSite false) in
  let s0 := start (twoSectionSite false) in
  ScrapeReviews 5 [] s0 = (Some (Ok twoSectionReviews), (ScrapeReviews 5 [] s0).2)
  /\ twoSectionReviews = reviewsOf (runYield 5 [] (afterSetup [] s0)).
Proof.
  intros RT s0.
  assert (H : ScrapeReviews 5 [] s0
              = (Some (Ok twoSectionReviews), (ScrapeReviews 5 [] s0).2))
    by (vm_compute; reflexivity).
  exact (conj H (proj1 (@reviews_follow_processing_order RT 5 [] s0
                          twoSectionReviews _ H))).
Defined.

(** C4: for a reply without any bracket the server's extractor returns
    the fixed message, which does not carry the reply, where the
    stand-alone program's extractor appends the reply to it.  (That the
    failure of one section is logged and skipped and never ends the loop
    holds: see [processSection_cases] and [processPage_error].) *)
Theorem server_extraction_error_drops_reply :
  let RT := runtime (replySite sorryReply) in
  let s0 := start (replySite sorryReply) in
  (extractReviewDataUsingLLM (render sectionPage) s0).1
    = Err (str "failed to extract JSON from response")
  /\ (MainGo.extractReviewDataUsingLLM (render sectionPage) s0).1
    = Err (str "failed to extract JSON from response: " ++ sorryReply).
Proof. split; vm_compute; reflexivity. Qed.

(** C8, counterexample: a reply that starts with a bracketed note and
    then holds one well-formed array; the match runs from the bracket of
    the note to the end of the array and does not decode. *)
Lemma bracketed_note_breaks_extraction : ~ unique_array_is_extracted.
Proof.
  intros H.
  specialize (H (replySite notedReply) (render sectionPage) notedReply oneReview
                [mkReview (str "Good") (str "Fine") (str "4/5") (str "Ann")]
                eq_refl).
  assert (E : arraysIn notedReply = [oneReview]) by (vm_compute; reflexivity).
  assert (U : Json.Unmarshal oneReview
              = Ok [mkReview (str "Good") (str "Fine") (str "4/5") (str "Ann")])
    by (vm_compute; reflexivity).
  specialize (H E U). vm_compute in H. discriminate H.
Qed.

(** C8, witness: an array between two sentences without brackets. *)
Lemma array_between_brackets_is_extracted_witness :
  let RT := runtime (replySite chattyReply) in
  let s0 := start (replySite chattyReply) in
  let pre := str "Here is the JSON: " in
  let mid := qq "{`title`:`Good`,`body`:`Fine`,`rating`:`4/5`,`reviewer`:`Ann`}" in
  let post := str " Hope it helps." in
  let rs := [mkReview (str "Good") (str "Fine") (str "4/5") (str "Ann")] in
  llms_GenerateFromSinglePrompt (prompt (render sectionPage)) callOptions (world s0)
    = (Ok (pre ++ openBr :: mid ++ closeBr :: post), 0)
  /\ ~ In openBr pre /\ ~ In closeBr post
  /\ json_Unmarshal (openBr :: mid ++ [closeBr]) = Ok rs
  /\ extractReviewDataUsingLLM (render sectionPage) s0 = (Ok rs, withWorld s0 0).
Proof.
  intros RT s0 pre mid post rs.
  assert (H1 : llms_GenerateFromSinglePrompt (prompt (render sectionPage))
                 callOptions (world s0)
               = (Ok (pre ++ openBr :: mid ++ closeBr :: post), 0))
    by (vm_compute; reflexivity).
  assert (H2 : ~ In openBr pre)
    by (vm_compute; intros H; repeat (destruct H as [H|H]; [discriminate H|]); exact H).
  assert (H3 : ~ In closeBr post)
    by (vm_compute; intros H; repeat (destruct H as [H|H]; [discriminate H|]); exact H).
  assert (H4 : json_Unmarshal (openBr :: mid ++ [closeBr]) = Ok rs)
    by (vm_compute; reflexivity).
  exact (conj H1 (conj H2 (conj H3 (conj H4
           (@array_between_brackets_is_extracted RT (render sectionPage) s0
              pre mid post rs 0 H1 H2 H3 H4))))).
Defined.

(** The three-page scenario: both controls are followed, the last page
    falls back to scrolling, is fetched unchanged twice, and the three
    reviews come back in page order. *)
Example three_page_site_run :
  let RT := runtime threePageSite in
  (ScrapeReviews 10 [] (start threePageSite)).1 = Some (Ok threePageReviews)
  /\ outcomes 10 processPage [] (start threePageSite)
     = [Clicked; Clicked; Scrolled (render (pageN 2)); Stagnant (render (pageN 2))].
Proof. split; vm_compute; reflexivity. Qed.

(** The infinite-scroll scenario: three scrolls reveal new markup, the
    fourth does not. *)
Example infinite_scroll_site_run :
  let RT := runtime (scrollSite 3) in
  outcomes 10 processPage [] (start (scrollSite 3))
  = [Scrolled (render (growingPage 1)); Scrolled (render (growingPage 2));
     Scrolled (render (growingPage 3)); Stagnant (render (growingPage 3))]
  /\ (handlePagination 10 processPage (start (scrollSite 3))).1 = Some None.
Proof. split; vm_compute; reflexivity. Qed.

(** ** Discovery and isolation together *)

Section DiscoveryClaims.
Context `{RT : Runtime}.

(** A reported match of the scan is discovered, whatever the order of
    the range. *)
Lemma findReviewIDs_of_match html st v :
  In v (map (fun m => nth 1 m []) (FindAllStringSubmatch reviewIDPattern 1 html)) ->
  In v (findReviewIDs html st).1.
Proof.
  rewrite in_map_iff. intros (m & <- & Hin). apply findReviewIDs_In.
  exists m. repeat split; auto.
  apply allMatches_sound in Hin as (_ & _ & _ & _ & _ & ->). lia.
Qed.

(** C6 (amended): discovery reports only values of id-style
    attributes that hold the word review in some case; it reports
    the values [Review] and [Product_Reviews_2] of the two sample
    attributes; and it reports the value of every attribute written as
    id, equals sign, quote, value, quote whose value has no quote and
    no white space before the word review, provided no earlier match
    runs into the attribute.  (A value with white space before the
    word is not matched.) *)
Theorem quoted_review_ids_are_discovered pre s v post st :
  idAttribute s v post -> clearBefore pre s ->
  In v (findReviewIDs (pre ++ s) st).1
  /\ (forall html v',
        In v' (findReviewIDs html st).1 ->
        exists pre' rest post' a w b,
          html = pre' ++ rest /\ idAttribute rest v' post'
          /\ v' = a ++ w ++ b /\ map lower w = str "review")
  /\ In (str "Review") (findReviewIDs (qq "<div id=`Review`>") st).1
  /\ In (str "Product_Reviews_2")
        (findReviewIDs (qq "<div id=`Product_Reviews_2`>") st).1.
Proof.
  intros Hid Hclear. split; [|split; [|split]].
  - eapply findReviewIDs_complete; eauto.
  - intros html v' H. apply findReviewIDs_sound in H as (pre' & rest & post' & -> & H).
    pose proof H as (n & q1 & a & w & b & q2 & _ & _ & _ & _ & _ & Hw & _ & ->).
    exists pre', rest, post', a, w, b. auto.
  - apply findReviewIDs_of_match. vm_compute. now left.
  - apply findReviewIDs_of_match. vm_compute. now left.
Qed.

(** C10: the pattern is not anchored to an attribute named id: an
    id-equals-quote occurrence is matched whatever text precedes it,
    be it the end of a longer attribute name such as data-id or the
    inside of a comment or script, as long as no earlier match runs
    into it, and its value is discovered; and a candidate that is the
    id of no element of the parsed document is skipped at isolation:
    one line is logged, no error is raised, the reviews collected so
    far and the world are unchanged, and the loop goes on with the
    remaining candidates. *)
Theorem unmatched_candidates_are_skipped pre s v post doc st :
  clearBefore pre s ->
  idAttribute s v post ->
  forallb (fun n => negb (hasID v n)) (subtrees doc) = true ->
  In v (findReviewIDs (pre ++ s) st).1
  /\ forall st' rest,
       let skipped :=
         mkState (world st')
                 (logs st' ++ [str "Section with id " ++ v ++ str " not found"])
                 (stdout st') (allReviews st') in
       processSection doc v st' = (tt, skipped)
       /\ processSections doc (v :: rest) st' = processSections doc rest skipped.
Proof.
  intros Hpre Hid Hno. split.
  - eapply findReviewIDs_complete; eauto.
  - intros st' rest skipped.
    assert (E : processSection doc v st' = (tt, skipped)).
    { rewrite processSection_cases.
      assert (N : extractSectionByID doc v = None).
      { apply extractSectionByID_None. intros n Hn.
        rewrite forallb_forall in Hno. apply Hno in Hn.
        now destruct (hasID v n). }
      now rewrite N. }
    split; [exact E|]. simpl. unfold bind. now rewrite E.
Qed.
End DiscoveryClaims.


(** C6, counterexample: the value [customer reviews] of a quoted id
    attribute holds the word review after a blank, and discovery reports
    nothing for it. *)
Lemma space_before_review_is_not_discovered : ~ every_review_id_is_discovered.
Proof.
  intros H.
  specialize (H (runtime staticSite) (start staticSite)
                (str "<div ") (str "customer reviews") (str ">") dq
                (str "customer ") (str "review") (str "s")
                eq_refl eq_refl eq_refl eq_refl).
  vm_compute in H. exact H.
Qed.

(** C6, witness: a single-quoted upper-case ID attribute whose value has
    a blank after the word. *)
Lemma quoted_review_ids_are_discovered_witness :
  let RT := runtime staticSite in
  let st := start staticSite in
  let pre := str "<ul class=list><li " in
  let s := str "ID='customer-Reviews list'>" in
  let v := str "customer-Reviews list" in
  let post := str ">" in
  idAttribute s v post /\ clearBefore pre s
  /\ In v (findReviewIDs (pre ++ s) st).1.
Proof.
  intros RT st pre s v post.
  assert (H1 : idAttribute s v post).
  { exists (str "ID="), "'"%char, (str "customer-"), (str "Review"), (str "s list"), "'"%char.
    repeat split; reflexivity. }
  assert (H2 : clearBefore pre s)
    by (apply (clearBefore_notQuote pre s v post); [reflexivity | exact H1]).
  exact (conj H1 (conj H2
           (proj1 (@quoted_review_ids_are_discovered RT pre s v post st H1 H2)))).
Defined.

(** C10, witness: a page whose only such text is a data-id attribute;
    its value is discovered, no element has it as id, and the run over
    this one candidate logs one line and collects nothing. *)
Lemma unmatched_candidates_are_skipped_witness :
  let RT := runtime dataIdSite in
  let st := start dataIdSite in
  let pre := str "<html><head></head><body><div data-" in
  let s := qq "id=`reviews-x`>x</div></body></html>" in
  let v := str "reviews-x" in
  render dataIdPage = pre ++ s
  /\ clearBefore pre s
  /\ idAttribute s v (str ">x</div></body></html>")
  /\ forallb (fun n => negb (hasID v n)) (subtrees dataIdPage) = true
  /\ In v (findReviewIDs (pre ++ s) st).1
  /\ processSections dataIdPage [v] st
     = (tt, mkState 0 [str "Section with id reviews-x not found"] [] []).
Proof.
  intros RT st pre s v.
  assert (H0 : render dataIdPage = pre ++ s) by (vm_compute; reflexivity).
  assert (H2 : idAttribute s v (str ">x</div></body></html>")).
  { exists (str "id="), dq, [], (str "review"), (str "s-x"), dq.
    repeat split; reflexivity. }
  assert (H1 : clearBefore pre s)
    by (apply (clearBefore_notQuote pre s v (str ">x</div></body></html>"));
        [reflexivity | exact H2]).
  assert (H3 : forallb (fun n => negb (hasID v n)) (subtrees dataIdPage) = true)
    by (vm_compute; reflexivity).
  pose proof (@unmatched_candidates_are_skipped RT pre s v _ dataIdPage st H1 H2 H3)
    as [T1 T2].
  refine (conj H0 (conj H1 (conj H2 (conj H3 (conj T1 _))))).
  destruct (T2 st []) as [_ T3]. rewrite T3. reflexivity.
Defined.

(** ** Further properties of the code *)

(** ** Section isolation, continued *)

Lemma last_map_Some_app {A} (l1 l2 : list A) :
  List.last (map Some (l1 ++ l2)) None
  = override (List.last (map Some l2) None) (List.last (map Some l1) None).
Proof.
  induction l2 as [|x l2 IH] using rev_ind.
  - rewrite app_nil_r. reflexivity.
  - rewrite app_assoc, !map_app. cbn [map].
    rewrite !last_last. reflexivity.
Qed.

Lemma topMatches_subtrees id n :
  Forall (fun m => In m (subtrees n) /\ hasID id m = true) (topMatches id n).
Proof.
  induction n as [t d a cs IH] using Node_ind'.
  cbn [topMatches].
  destruct (NodeType_eqb t ElementNode && attrLoop a id) eqn:E.
  - constructor; [|constructor]. split; [left; reflexivity | exact E].
  - apply Forall_forall. intros m Hm.
    apply list_elem_of_In, in_flat_map in Hm. destruct Hm as (c & Hc & Hm).
    rewrite Forall_forall in IH.
    specialize (IH c (proj2 (list_elem_of_In _ _) Hc)).
    rewrite Forall_forall in IH.
    destruct (IH m (proj2 (list_elem_of_In _ _) Hm)) as [H1 H2].
    split; [|exact H2].
    right. apply in_flat_map. exists c. split; assumption.
Qed.

(** X1.  [extractSectionByID] returns the last of the elements that
    carry the identifier and are not nested inside another such
    element, and nil when there is none; every one of these is an
    element of the document with an [id] attribute equal to the
    identifier. *)
Theorem extractSectionByID_last_top_match (doc : Node) (id : gostring) :
  extractSectionByID doc id = List.last (map Some (topMatches id doc)) None
  /\ Forall (fun m => In m (subtrees doc) /\ hasID id m = true)
            (topMatches id doc).
Proof.
  split; [|apply topMatches_subtrees].
  unfold extractSectionByID.
  induction doc as [t d a cs IH] using Node_ind'.
  destruct (hasID id (mkNode t d a cs)) eqn:E.
  - unfold hasID in E. cbn [Type_ Attr] in E.
    cbn [traverse topMatches]. rewrite E. reflexivity.
  - rewrite (traverse_children _ _ _ _ _ E).
    unfold hasID in E. cbn [Type_ Attr] in E.
    cbn [topMatches]. rewrite E. clear E.
    induction IH as [|c cs Hc _ IHcs].
    + reflexivity.
    + cbn [foldr flat_map]. rewrite last_map_Some_app, IHcs, Hc. reflexivity.
Qed.

(** A match inside a match is shadowed by the outer one, and the last
    sibling match wins. *)
Example nested_matches_run :
  topMatches (str "reviews") nested
  = [elem "div" [("id", "reviews")]
       [elem "span" [("id", "reviews")] [text (str "inner")]];
     elem "div" [("id", "reviews")] [text (str "second")]]
  /\ extractSectionByID nested (str "reviews")
     = Some (elem "div" [("id", "reviews")] [text (str "second")]).
Proof. split; vm_compute; reflexivity. Qed.

Lemma find_head_filter {A} (p : A -> bool) (l : list A) :
  find p l = head (List.filter p l).
Proof.
  induction l as [|x l IH]; [reflexivity|].
  cbn [find List.filter]. destruct (p x); [reflexivity | exact IH].
Qed.

(** X2.  When at most one element of the document carries the
    identifier, [extractSectionByID] returns what a search in document
    order returns. *)
Theorem extractSectionByID_agrees_when_unique (doc : Node) (id : gostring)
  (Huniq : length (List.filter (hasID id) (subtrees doc)) <= 1) :
  extractSectionByID doc id = firstByID doc id.
Proof.
  destruct (extractSectionByID doc id) as [m|] eqn:E.
  - apply traverse_Some in E. destruct E as [Hin Hid].
    unfold firstByID. rewrite find_head_filter.
    assert (Hm : In m (List.filter (hasID id) (subtrees doc))).
    { apply filter_In. split; assumption. }
    destruct (List.filter (hasID id) (subtrees doc)) as [|x [|y l]].
    + destruct Hm.
    + destruct Hm as [->|[]]. reflexivity.
    + cbn [length] in Huniq. lia.
  - symmetry. apply extractSectionByID_notfound_agrees. exact E.
Qed.

(** X2, witness: the page with one review section. *)
Lemma extractSectionByID_agrees_when_unique_witness :
  length (List.filter (hasID (str "reviews")) (subtrees sectionPage)) <= 1
  /\ extractSectionByID sectionPage (str "reviews")
     = firstByID sectionPage (str "reviews").
Proof.
  assert (H : length (List.filter (hasID (str "reviews")) (subtrees sectionPage)) <= 1).
  { vm_compute. lia. }
  exact (conj H (extractSectionByID_agrees_when_unique sectionPage (str "reviews") H)).
Defined.

(** ** Discovery, continued *)

Lemma main_findReviewIDs_fold (ms : list (list gostring)) (acc : list gostring) (v : gostring) :
  In v (fold_left (fun ids m =>
                     if Nat.ltb 1 (length m) then ids ++ [nth 1 m []] else ids)
                  ms acc)
  <-> In v acc \/ exists m, In m ms /\ 1 < length m /\ nth 1 m [] = v.
Proof.
  revert acc. induction ms as [|m ms IH]; intros acc; cbn [fold_left].
  - split; [auto|]. intros [H|(m & [] & _)]. exact H.
  - rewrite IH. destruct (Nat.ltb 1 (length m)) eqn:E.
    + apply Nat.ltb_lt in E. rewrite in_app_iff. cbn [In]. split.
      * intros [[H|[H|[]]]|(m' & H1 & H2)].
        -- left; exact H.
        -- right. exists m. repeat split; auto.
        -- right. exists m'. split; [right|]; assumption.
      * intros [H|(m' & [<-|H1] & H2 & H3)].
        -- left; left; exact H.
        -- left; right; left; exact H3.
        -- right. exists m'. repeat split; assumption.
    + apply Nat.ltb_ge in E. split.
      * intros [H|(m' & H1 & H2)]; [left; exact H|].
        right. exists m'. split; [right|]; assumption.
      * intros [H|(m' & [<-|H1] & H2 & H3)].
        -- left; exact H.
        -- lia.
        -- right. exists m'. repeat split; assumption.
Qed.

Section DiscoveryVersions.
Context `{RT : Runtime}.

(** X3.  The server's [findReviewIDs] never lists a value twice, lists
    exactly the values that the stand-alone program's [findReviewIDs]
    lists, and is never longer. *)
Theorem server_ids_are_main_ids_without_repeats (html : gostring) (s : State) :
  NoDup (findReviewIDs html s).1
  /\ (forall v, In v (findReviewIDs html s).1 <-> In v (MainGo.findReviewIDs html))
  /\ length (findReviewIDs html s).1 <= length (MainGo.findReviewIDs html).
Proof.
  assert (Hnd : NoDup (findReviewIDs html s).1).
  { apply NoDup_ListNoDup.
    rewrite (findReviewIDs_perm html s). apply NoDup_ListNoDup, NoDup_elements. }
  assert (Hiff : forall v, In v (findReviewIDs html s).1
                           <-> In v (MainGo.findReviewIDs html)).
  { intros v. unfold MainGo.findReviewIDs. cbv zeta.
    rewrite main_findReviewIDs_fold.
    pose proof (findReviewIDs_perm html s) as P.
    rewrite <- !list_elem_of_In. rewrite P. rewrite elem_of_elements.
    rewrite elem_of_idSetOf. split.
    - intros H. right. exact H.
    - intros [H|H]; [inversion H | exact H]. }
  repeat split; try apply Hiff; try exact Hnd.
  apply NoDup_incl_length.
  - apply NoDup_ListNoDup. exact Hnd.
  - intros v Hv. apply Hiff. exact Hv.
Qed.
End DiscoveryVersions.

Lemma isPrefix_app (p s : gostring) : isPrefix p (p ++ s) = true.
Proof.
  induction p as [|a p IH]; [reflexivity|].
  cbn [isPrefix app]. rewrite Ascii.eqb_refl. exact IH.
Qed.

Lemma contains_app (x w y : gostring) : contains (x ++ w ++ y) w = true.
Proof.
  induction x as [|a x IH].
  - cbn [app]. destruct (w ++ y) eqn:E; cbn [contains]; rewrite <- ?E;
      rewrite isPrefix_app; reflexivity.
  - cbn [app contains]. rewrite IH. apply orb_true_r.
Qed.

Lemma idAttribute_mentions (s v post : gostring) :
  idAttribute s v post ->
  exists x w y, s = x ++ w ++ y /\ map lower w = str "review"
                /\ exists a b, v = a ++ w ++ b.
Proof.
  intros (name & q1 & a & w & b & q2 & -> & _ & _ & _ & _ & Hw & _ & ->).
  exists (name ++ q1 :: a), w, (b ++ q2 :: post).
  split; [|split; [exact Hw | exists a, b; reflexivity]].
  rewrite <- !app_assoc. reflexivity.
Qed.

Lemma no_mention_no_match (html : gostring) :
  contains (map lower html) (str "review") = false ->
  FindAllStringSubmatch reviewIDPattern 1 html = [].
Proof.
  intros Hno. unfold FindAllStringSubmatch. cbn [allMatches].
  destruct (leftmost reviewIDPattern html) as [[[m s'] c]|] eqn:E; [|reflexivity].
  exfalso.
  destruct (scan_step _ _ _ _ E) as (skip & v & -> & _ & _ & Hid & _).
  destruct (idAttribute_mentions _ _ _ Hid) as (x & w & y & Hs & Hw & _).
  rewrite Hs, !map_app, Hw in Hno.
  rewrite (app_assoc (map lower skip)), contains_app in Hno. discriminate.
Qed.

Section DiscoverySound.
Context `{RT : Runtime}.

(** X4.  Every value the server's [findReviewIDs] lists stands in the
    markup between two quote characters right after the letters of
    [id=] (in either case), contains no quote character, and contains
    the letters of the word review (in either case) with no white
    space before them. *)
Theorem discovered_ids_occur_in_markup (html : gostring) (s : State) :
  Forall (fun v =>
            (exists pre name q1 q2 post,
                html = pre ++ name ++ q1 :: v ++ q2 :: post
                /\ map lower name = str "id="
                /\ isQuote q1 = true /\ isQuote q2 = true)
            /\ forallb notQuote v = true
            /\ exists a w b, v = a ++ w ++ b
                             /\ map lower w = str "review"
                             /\ forallb notQuoteOrSpace a = true)
         (findReviewIDs html s).1.
Proof.
  apply List.Forall_forall. intros v Hv.
  destruct (findReviewIDs_sound html s v Hv) as (pre & rest & post & -> & Hid).
  destruct Hid as (name & q1 & a & w & b & q2 & -> & Hn & Hq1 & Hq2 & Ha & Hw & Hb & ->).
  split; [|split].
  - exists pre, name, q1, q2, post. repeat split; try assumption.
    rewrite <- !app_assoc. reflexivity.
  - apply idAttribute_value_notQuote; assumption.
  - exists a, w, b. repeat split; assumption.
Qed.
End DiscoverySound.

Section Pages.
Context `{RT : Runtime}.

Lemma findReviewIDs_no_match (html : gostring) (s : State) :
  FindAllStringSubmatch reviewIDPattern 1 html = [] ->
  findReviewIDs html s = ([], withWorld s (map_range ∅ (world s)).2).
Proof.
  intros Hno. unfold findReviewIDs. cbv zeta. rewrite Hno, call_eq.
  cbn [idSetOf fold_left]. f_equal.
  pose proof (map_range_perm ∅ (world s)) as P.
  rewrite elements_empty in P. apply Permutation_nil_r in P. exact P.
Qed.

(** X5.  Markup that does not contain the letters of the word review
    (in either case) has no candidates in either version of
    [findReviewIDs], and the page-processing closure of [ScrapeReviews]
    then only writes the log line that no review sections were found:
    it returns no error and leaves the collected reviews as they were. *)
Theorem page_without_review_has_no_candidates (html : gostring) (s : State)
  (Hno : contains (map lower html) (str "review") = false) :
  MainGo.findReviewIDs html = []
  /\ (findReviewIDs html s).1 = []
  /\ (processPage html s).1 = None
  /\ logs (processPage html s).2 = logs s ++ [str "No review sections found"]
  /\ allReviews (processPage html s).2 = allReviews s.
Proof.
  pose proof (no_mention_no_match html Hno) as Hm.
  split.
  { unfold MainGo.findReviewIDs. cbv zeta. rewrite Hm. reflexivity. }
  unfold processPage, bind.
  rewrite (findReviewIDs_no_match html s Hm).
  repeat split.
Qed.

(** X6.  When the completion service answers, the server's extractor
    reports the error [failed to extract JSON from response] exactly
    when the reply has no opening bracket that is followed somewhere by
    a closing bracket. *)
Theorem extraction_error_iff_no_bracket_pair
  (sectionHTML : gostring) (s : State) (response : gostring) (w' : World)
  (Hreply : llms_GenerateFromSinglePrompt (prompt sectionHTML) callOptions (world s)
            = (Ok response, w')) :
  (extractReviewDataUsingLLM sectionHTML s).1
    = Err (str "failed to extract JSON from response")
  <-> ~ exists pre mid post, response = pre ++ openBr :: mid ++ closeBr :: post.
Proof.
  rewrite <- FindString_json_empty.
  rewrite extract_cases. cbv zeta. rewrite Hreply. cbn [fst snd].
  destruct (FindString jsonPattern response) as [|a m].
  - split; reflexivity.
  - split; [|discriminate].
    destruct (json_Unmarshal (a :: m)) as [reviews|err]; [discriminate|].
    intros H. exfalso. injection H as H.
    cbn in H. discriminate H.
Qed.

(** X7.  A section whose reply holds a bracketed text that the decoder
    rejects costs only that section: the loop body writes one log line
    with the parse error, leaves the collected reviews as they were, and
    the only change to the world is the call of the completion service. *)
Theorem undecodable_reply_skips_section
  (doc section : Node) (id : gostring) (s : State)
  (pre mid post : gostring) (err : error) (w' : World)
  (Hsec : extractSectionByID doc id = Some section)
  (Hreply : llms_GenerateFromSinglePrompt
              (prompt (renderNodeToString section)) callOptions (world s)
            = (Ok (pre ++ openBr :: mid ++ closeBr :: post), w'))
  (Hpre : ~ In openBr pre) (Hpost : ~ In closeBr post)
  (Hbad : json_Unmarshal (openBr :: mid ++ [closeBr]) = Err err) :
  processSection doc id s
  = (tt, mkState w'
           (logs s ++ [str "Error extracting reviews for section " ++ id
                         ++ str ": failed to parse review JSON: " ++ err])
           (stdout s) (allReviews s)).
Proof.
  rewrite processSection_cases, Hsec.
  rewrite (extract_bad_array _ _ _ _ _ _ _ Hreply Hpre Hpost Hbad).
  reflexivity.
Qed.

(** X8.  A failure of the completion service costs only that section
    too: the loop body writes one log line with the error of the
    service and leaves the collected reviews as they were. *)
Theorem completion_failure_skips_section
  (doc section : Node) (id : gostring) (s : State) (err : error) (w' : World)
  (Hsec : extractSectionByID doc id = Some section)
  (Hfail : llms_GenerateFromSinglePrompt
             (prompt (renderNodeToString section)) callOptions (world s)
           = (Err err, w')) :
  processSection doc id s
  = (tt, mkState w'
           (logs s ++ [str "Error extracting reviews for section " ++ id
                         ++ str ": failed to generate completion: " ++ err])
           (stdout s) (allReviews s)).
Proof.
  rewrite processSection_cases, Hsec, extract_cases.
  cbv zeta. rewrite Hfail. reflexivity.
Qed.

(** X9.  The page-processing closure of [ScrapeReviews] returns an
    error exactly when the snapshot has at least one candidate and
    [html.Parse] rejects it; the error is then the parse error behind
    the words [error parsing HTML]. *)
Theorem processPage_fails_iff_parse_fails
  (pageSource : gostring) (s : State) (err : error) :
  (processPage pageSource s).1 = Some err
  <-> (findReviewIDs pageSource s).1 <> []
      /\ exists e, html_Parse pageSource = Err e
                   /\ err = str "error parsing HTML: " ++ e.
Proof.
  unfold processPage, bind.
  destruct (findReviewIDs pageSource s) as [ids s1]. cbn [fst].
  destruct ids as [|id ids].
  - cbn. split; [discriminate|]. intros [H _]. congruence.
  - destruct (html_Parse pageSource) as [doc|e].
    + unfold ret. destruct (processSections doc (id :: ids) s1). cbn [fst].
      split; [discriminate|]. intros (_ & e & He & _). discriminate.
    + cbn [ret fst]. split.
      * intros H. injection H as <-. split; [discriminate|].
        exists e. split; reflexivity.
      * intros (_ & e' & He & ->). injection He as <-. reflexivity.
Qed.

End Pages.


(** X5, witness: a page about something else. *)
Lemma page_without_review_has_no_candidates_witness :
  let RT := runtime staticSite in
  let s0 := start staticSite in
  contains (map lower aboutPage) (str "review") = false
  /\ MainGo.findReviewIDs aboutPage = []
  /\ (findReviewIDs aboutPage s0).1 = []
  /\ (processPage aboutPage s0).1 = None
  /\ logs (processPage aboutPage s0).2 = logs s0 ++ [str "No review sections found"]
  /\ allReviews (processPage aboutPage s0).2 = allReviews s0.
Proof.
  intros RT s0.
  assert (H : contains (map lower aboutPage) (str "review") = false)
    by (vm_compute; reflexivity).
  exact (conj H (@page_without_review_has_no_candidates RT aboutPage s0 H)).
Defined.

(** X6, witness: a reply in plain words. *)
Lemma extraction_error_iff_no_bracket_pair_witness :
  let RT := runtime (replySite sorryReply) in
  let s0 := start (replySite sorryReply) in
  llms_GenerateFromSinglePrompt (prompt (render sectionPage)) callOptions (world s0)
    = (Ok sorryReply, 0)
  /\ ((extractReviewDataUsingLLM (render sectionPage) s0).1
        = Err (str "failed to extract JSON from response")
      <-> ~ exists pre mid post, sorryReply = pre ++ openBr :: mid ++ closeBr :: post).
Proof.
  intros RT s0.
  assert (H : llms_GenerateFromSinglePrompt (prompt (render sectionPage))
                callOptions (world s0) = (Ok sorryReply, 0))
    by (vm_compute; reflexivity).
  exact (conj H (@extraction_error_iff_no_bracket_pair RT (render sectionPage) s0
                   sorryReply 0 H)).
Defined.

(** X7, witness: a reply with an array of numbers. *)
Lemma undecodable_reply_skips_section_witness :
  let RT := runtime (replySite numbersReply) in
  let s0 := start (replySite numbersReply) in
  let pre := str "Ratings: " in
  let mid := str "1, 2" in
  let err := str "json: cannot unmarshal number into Go value of type main.Review" in
  extractSectionByID sectionPage (str "reviews") = Some reviewsDiv
  /\ llms_GenerateFromSinglePrompt
       (prompt (renderNodeToString reviewsDiv)) callOptions (world s0)
     = (Ok (pre ++ openBr :: mid ++ closeBr :: []), 0)
  /\ ~ In openBr pre /\ ~ In closeBr []
  /\ json_Unmarshal (openBr :: mid ++ [closeBr]) = Err err
  /\ processSection sectionPage (str "reviews") s0
     = (tt, mkState 0
              (logs s0 ++ [str "Error extracting reviews for section " ++ str "reviews"
                             ++ str ": failed to parse review JSON: " ++ err])
              (stdout s0) (allReviews s0)).
Proof.
  intros RT s0 pre mid err.
  assert (H1 : extractSectionByID sectionPage (str "reviews") = Some reviewsDiv)
    by (vm_compute; reflexivity).
  assert (H2 : llms_GenerateFromSinglePrompt
                 (prompt (renderNodeToString reviewsDiv)) callOptions (world s0)
               = (Ok (pre ++ openBr :: mid ++ closeBr :: []), 0))
    by (vm_compute; reflexivity).
  assert (H3 : ~ In openBr pre)
    by (vm_compute; intros H; repeat (destruct H as [H|H]; [discriminate H|]); exact H).
  assert (H4 : ~ In closeBr []) by (intros []).
  assert (H5 : json_Unmarshal (openBr :: mid ++ [closeBr]) = Err err)
    by (vm_compute; reflexivity).
  exact (conj H1 (conj H2 (conj H3 (conj H4 (conj H5
           (@undecodable_reply_skips_section RT sectionPage reviewsDiv (str "reviews")
              s0 pre mid [] err 0 H1 H2 H3 H4 H5)))))).
Defined.

(** X8, witness: a completion service that is down. *)
Lemma completion_failure_skips_section_witness :
  let RT := runtime Machine.downSite in
  let s0 := start Machine.downSite in
  let err := str "rate limit reached" in
  extractSectionByID sectionPage (str "reviews") = Some reviewsDiv
  /\ llms_GenerateFromSinglePrompt
       (prompt (renderNodeToString reviewsDiv)) callOptions (world s0)
     = (Err err, 0)
  /\ processSection sectionPage (str "reviews") s0
     = (tt, mkState 0
              (logs s0 ++ [str "Error extracting reviews for section " ++ str "reviews"
                             ++ str ": failed to generate completion: " ++ err])
              (stdout s0) (allReviews s0)).
Proof.
  intros RT s0 err.
  assert (H1 : extractSectionByID sectionPage (str "reviews") = Some reviewsDiv)
    by (vm_compute; reflexivity).
  assert (H2 : llms_GenerateFromSinglePrompt
                 (prompt (renderNodeToString reviewsDiv)) callOptions (world s0)
               = (Err err, 0))
    by (vm_compute; reflexivity).
  exact (conj H1 (conj H2
           (@completion_failure_skips_section RT sectionPage reviewsDiv (str "reviews")
              s0 err 0 H1 H2))).
Defined.

(** ** The pagination loop, continued *)

Section Loop.
Context `{RT : Runtime}.




(** X12.  The collected reviews only grow while the loop runs: what
    is collected after some passes is still there, at the front and
    in the same order, after any number of further passes. *)
Theorem collected_reviews_only_grow (fuel k : nat) (prev : gostring) (s : State) :
  exists more,
    allReviews (paginate (fuel + k) processPage prev s).2
    = allReviews (paginate fuel processPage prev s).2 ++ more.
Proof.
  revert prev s. induction fuel as [|fuel IH]; intros prev s.
  - cbn [Nat.add]. rewrite paginate_appends. cbn [paginate ret snd].
    eexists. reflexivity.
  - cbn [paginate Nat.add]. unfold bind.
    destruct (iteration processPage prev s) as [o s1].
    destruct o as [|new|new|e]; try apply IH; exists []; rewrite app_nil_r; reflexivity.
Qed.

(** *** One request does not see another *)

Lemma respects_ret {A} (a : A) : respects (ret a).
Proof. intros s s' H. split; [reflexivity | exact H]. Qed.

Lemma respects_bind {A B} (m : M A) (f : A -> M B) :
  respects m -> (forall a, respects (f a)) -> respects (bind m f).
Proof.
  intros Hm Hf s s' H. unfold bind.
  specialize (Hm s s' H).
  destruct (m s) as [a s1], (m s') as [a' s1']. cbn [fst snd] in Hm.
  destruct Hm as [<- H1]. apply Hf. exact H1.
Qed.

Lemma respects_call {A} (op : World -> A * World) : respects (call op).
Proof.
  intros s s' [Hw Hr]. unfold call. rewrite Hw.
  destruct (op (world s')) as [a w]. split; [reflexivity | split; [reflexivity | exact Hr]].
Qed.

Lemma call_world_only {A} (op : World -> A * World) (s s' : State) :
  world s = world s' ->
  (call op s).1 = (call op s').1 /\ world (call op s).2 = world (call op s').2.
Proof. intros H. rewrite !call_eq, H. split; reflexivity. Qed.

Lemma respects_sleep d : respects (sleep d).
Proof.
  intros s s' [Hw Hr]. unfold sleep. cbn. rewrite Hw.
  split; [reflexivity | split; [reflexivity | exact Hr]].
Qed.

Lemma respects_log line : respects (log_Print line).
Proof. intros s s' [Hw Hr]. split; [reflexivity | split; assumption]. Qed.

Lemma respects_append reviews : respects (appendReviews reviews).
Proof.
  intros s s' [Hw Hr]. split; [reflexivity | split; [exact Hw|]].
  cbn. rewrite Hr. reflexivity.
Qed.

Lemma respects_findNextButton selectors : respects (findNextButton selectors).
Proof.
  induction selectors as [|sel rest IH]; cbn [findNextButton].
  - apply respects_ret.
  - apply respects_bind; [apply respects_call|].
    intros [b|e]; [apply respects_ret | exact IH].
Qed.

Lemma respects_extract sectionHTML : respects (extractReviewDataUsingLLM sectionHTML).
Proof.
  unfold extractReviewDataUsingLLM.
  apply respects_bind; [apply respects_call|].
  intros [response|e]; [|apply respects_ret].
  cbv zeta. destruct (FindString jsonPattern response); [apply respects_ret|].
  destruct (json_Unmarshal _); apply respects_ret.
Qed.

Lemma respects_processSection doc id : respects (processSection doc id).
Proof.
  unfold processSection.
  destruct (extractSectionByID doc id) as [section|]; [|apply respects_log].
  cbv zeta. apply respects_bind; [apply respects_extract|].
  intros [reviews|e]; [apply respects_append | apply respects_log].
Qed.

Lemma respects_processSections doc ids : respects (processSections doc ids).
Proof.
  induction ids as [|id rest IH]; cbn [processSections].
  - apply respects_ret.
  - apply respects_bind; [apply respects_processSection | intros _; exact IH].
Qed.

Lemma respects_processPage src : respects (processPage src).
Proof.
  unfold processPage.
  apply respects_bind; [apply respects_call|].
  intros [|id ids].
  - apply respects_bind; [apply respects_log | intros _; apply respects_ret].
  - destruct (html_Parse src) as [doc|e]; [|apply respects_ret].
    apply respects_bind; [apply respects_processSections | intros _; apply respects_ret].
Qed.

Lemma respects_iteration prev : respects (iteration processPage prev).
Proof.
  unfold iteration.
  apply respects_bind; [apply respects_call|].
  intros [src|e]; [|apply respects_ret].
  apply respects_bind; [apply respects_processPage|].
  intros [e|]; [apply respects_ret|].
  apply respects_bind; [apply respects_findNextButton|].
  intros [b|].
  - apply respects_bind; [apply respects_call|].
    intros [e|]; [apply respects_ret|].
    apply respects_bind; [apply respects_sleep | intros _; apply respects_ret].
  - apply respects_bind; [apply respects_call|].
    intros [e|]; [apply respects_ret|].
    apply respects_bind; [apply respects_sleep | intros _].
    apply respects_bind; [apply respects_call|].
    intros [new|e]; [|apply respects_ret].
    destruct (gostring_eqb new prev); apply respects_ret.
Qed.

Lemma respects_paginate fuel : forall prev, respects (paginate fuel processPage prev).
Proof.
  induction fuel as [|fuel IH]; intros prev; cbn [paginate].
  - apply respects_ret.
  - apply respects_bind; [apply respects_iteration|].
    intros [|new|new|e]; try apply IH; apply respects_ret.
Qed.

(** X13.  What [ScrapeReviews] returns, and the world it leaves,
    depend only on the world it starts in: reviews collected and lines
    logged before the call have no influence, so no request returns
    reviews of an earlier one. *)
Theorem ScrapeReviews_ignores_earlier_requests
  (fuel : nat) (url : gostring) (s s' : State)
  (Hworld : world s = world s') :
  (ScrapeReviews fuel url s).1 = (ScrapeReviews fuel url s').1
  /\ world (ScrapeReviews fuel url s).2 = world (ScrapeReviews fuel url s').2.
Proof.
  unfold ScrapeReviews, bind.
  destruct (call_world_only (driver_Get url) s s' Hworld) as [G1 G2].
  destruct (call (driver_Get url) s) as [e1 s1],
           (call (driver_Get url) s') as [e1' s1'].
  cbn [fst snd] in G1, G2. subst e1'.
  destruct e1 as [e|]; [split; [reflexivity | exact G2]|].
  destruct (call_world_only (driver_SetImplicitWaitTimeout pageLoadTimeout) s1 s1' G2)
    as [W1 W2].
  destruct (call (driver_SetImplicitWaitTimeout pageLoadTimeout) s1) as [e2 s2],
           (call (driver_SetImplicitWaitTimeout pageLoadTimeout) s1') as [e2' s2'].
  cbn [fst snd] in W1, W2. subst e2'.
  destruct e2 as [e|]; [split; [reflexivity | exact W2]|].
  unfold declareAllReviews, handlePagination.
  destruct (respects_paginate fuel []
              (mkState (world s2) (logs s2) (stdout s2) [])
              (mkState (world s2') (logs s2') (stdout s2') []))
    as [R1 [R2 R3]]; [split; [exact W2 | reflexivity]|].
  destruct (paginate fuel processPage [] (mkState (world s2) _ _ _)) as [r1 t1],
           (paginate fuel processPage [] (mkState (world s2') _ _ _)) as [r2 t2].
  cbn [fst snd] in R1, R2, R3. subst r2.
  destruct r1 as [[e|]|]; cbn; rewrite ?R3; split; auto.
Qed.

End Loop.


(** X13, witness: the three-page site, scraped from a fresh state and
    from a state with a log line and a review left behind. *)
Lemma ScrapeReviews_ignores_earlier_requests_witness :
  let RT := runtime threePageSite in
  let s0 := start threePageSite in
  let s1 := mkState 0 [str "No review sections found"] []
                    [mkReview (str "Old") (str "Stale") (str "1/5") (str "Bob")] in
  world s0 = world s1
  /\ (ScrapeReviews 4 (str "https://shop.example/p") s0).1
     = (ScrapeReviews 4 (str "https://shop.example/p") s1).1
  /\ world (ScrapeReviews 4 (str "https://shop.example/p") s0).2
     = world (ScrapeReviews 4 (str "https://shop.example/p") s1).2.
Proof.
  intros RT s0 s1.
  assert (H : world s0 = world s1) by reflexivity.
  exact (conj H (@ScrapeReviews_ignores_earlier_requests RT 4
                   (str "https://shop.example/p") s0 s1 H)).
Defined.

(** ** Start-up, shutdown and the request handler *)

Section ServerProperties.
Context `{HT : Host}.

Lemma GetSeleniumConfig_eq (s : State) :
  GetSeleniumConfig s = (mkSeleniumConfig (hubHost (world s)) (hubPort (world s)), s).
Proof.
  unfold GetSeleniumConfig, bind, getEnvOrDefault, ret, hubHost, hubPort.
  destruct (os_Getenv (str "SELENIUM_HOST") (world s));
    destruct (os_Getenv (str "SELENIUM_PORT") (world s)); reflexivity.
Qed.

(** [NewReviewScraper], step by step. *)
Lemma NewReviewScraper_eq (s : State) :
  NewReviewScraper s
  = let (e0, w0) := godotenv_Load (world s) in
    let s1 := mkState w0
                (match e0 with
                 | Some _ => logs s ++ [str "Warning: Error loading .env file"]
                 | None => logs s
                 end) (stdout s) (allReviews s) in
    match os_Getenv (str "GROQ_API_KEY") w0 with
    | [] => (Err (str "GROQ_API_KEY environment variable is required"), s1)
    | k :: key =>
        match openai_New (str "llama-3.3-70b-versatile")
                         (str "https://api.groq.com/openai/v1") (k :: key) w0 with
        | (Err e, w1) => (Err (str "error initializing LLM: " ++ e), withWorld s1 w1)
        | (Ok client, w1) =>
            match selenium_NewRemote chromeCaps (hubURL w1) w1 with
            | (Err e, w2) =>
                (Err (str "failed to connect to Selenium WebDriver: " ++ e),
                 withWorld s1 w2)
            | (Ok d, w2) => (Ok (mkReviewScraper client (Some d)), withWorld s1 w2)
            end
        end
    end.
Proof.
  unfold NewReviewScraper, bind. rewrite call_eq.
  destruct (godotenv_Load (world s)) as [e0 w0]. cbn [fst snd].
  cbv zeta.
  set (s1 := mkState w0 _ (stdout s) (allReviews s)).
  replace (match e0 with
           | Some _ => log_Print (str "Warning: Error loading .env file")
           | None => ret tt
           end (withWorld s w0)) with (tt, s1)
    by (subst s1; destruct e0; reflexivity).
  change (world s1) with w0.
  destruct (os_Getenv (str "GROQ_API_KEY") w0) as [|k key]; [reflexivity|].
  rewrite call_eq. change (world s1) with w0.
  destruct (openai_New _ _ (k :: key) w0) as [[client|e] w1]; cbn [fst snd];
    [|reflexivity].
  rewrite GetSeleniumConfig_eq. cbn [Host_ Port world withWorld].
  rewrite call_eq. cbn [world withWorld]. fold (hubURL w1).
  destruct (selenium_NewRemote chromeCaps (hubURL w1) w1) as [[d|e] w2]; reflexivity.
Qed.

(** X14.  Without a value for [GROQ_API_KEY] (unset or empty, after the
    [.env] file was loaded) [NewReviewScraper] returns the error that
    the variable is required, and nothing but the loader has acted on
    the world: no completion client is created and no browser session
    is opened. *)
Theorem missing_api_key_opens_nothing (s : State)
  (Hkey : os_Getenv (str "GROQ_API_KEY") (godotenv_Load (world s)).2 = []) :
  (NewReviewScraper s).1
    = Err (str "GROQ_API_KEY environment variable is required")
  /\ world (NewReviewScraper s).2 = (godotenv_Load (world s)).2.
Proof.
  rewrite NewReviewScraper_eq.
  destruct (godotenv_Load (world s)) as [e0 w0]. cbn [snd] in Hkey.
  cbv zeta. rewrite Hkey. split; reflexivity.
Qed.


(** X16.  A scraper that [NewReviewScraper] returns always holds a
    session, so [Close] on it ends that session (the call of [Quit] is
    its only effect). *)
Theorem Close_quits_the_opened_session (s s1 : State) (rs : ReviewScraper)
  (Hok : NewReviewScraper s = (Ok rs, s1)) :
  exists d, driver rs = Some d
            /\ Close rs s1 = (tt, withWorld s1 (driver_Quit d (world s1)).2).
Proof.
  revert Hok. rewrite NewReviewScraper_eq.
  destruct (godotenv_Load (world s)) as [e0 w0]. cbv zeta.
  destruct (os_Getenv (str "GROQ_API_KEY") w0) as [|k key]; [discriminate|].
  destruct (openai_New _ _ (k :: key) w0) as [[client|e] w1]; [|discriminate].
  destruct (selenium_NewRemote chromeCaps (hubURL w1) w1) as [[d|e] w2];
    [|discriminate].
  intros H. injection H as <- <-.
  exists d. split; [reflexivity|].
  unfold Close, bind. cbn [driver]. rewrite call_eq. reflexivity.
Qed.

End ServerProperties.

Section HandlerProperties.
Context `{HT : Host}.



(** X18.  A request without [page] parameter is answered without
    touching the browser, and a request whose page cannot be loaded is
    answered after that single attempt: in both cases no review is
    collected and nothing is logged. *)
Theorem handler_rejects_early (fuel : nat) (page : gostring) (s : State)
  (Hearly : page = [] \/ (driver_Get page (world s)).1 <> None) :
  exists msg,
    (reviewsHandler fuel page s).1 = Some (Api.mkAPIResponse false [] msg)
    /\ logs (reviewsHandler fuel page s).2 = logs s
    /\ allReviews (reviewsHandler fuel page s).2 = allReviews s
    /\ world (reviewsHandler fuel page s).2
       = match page with [] => world s | _ :: _ => (driver_Get page (world s)).2 end.
Proof.
  unfold reviewsHandler, bind.
  destruct page as [|c page].
  - eexists. repeat split.
  - destruct Hearly as [H|H]; [discriminate|].
    unfold ScrapeReviews, bind. rewrite call_eq.
    destruct (driver_Get (c :: page) (world s)) as [[e|] w1]; cbn [fst snd] in *.
    + eexists. repeat split.
    + exfalso. apply H. reflexivity.
Qed.

End HandlerProperties.

(** ** The stand-alone program *)

Section MainProperties.
Context `{HT : Host}.

(** [fetchHTML], step by step. *)
Lemma fetchHTML_eq (url : gostring) (s : State) :
  MainProgram.fetchHTML url s
  = match http_Get url (world s) with
    | (Err err, w1) => (Err (str "failed to fetch page: " ++ err), withWorld s w1)
    | (Ok resp, w1) =>
        if Z.eqb (StatusCode resp) 200
        then
          let (b, w2) := ioutil_ReadAll (Body_ resp) w1 in
          (match b with
           | Err err => Err (str "failed to read response body: " ++ err)
           | Ok html => Ok html
           end, withWorld s (body_Close (Body_ resp) w2).2)
        else (Err (str "failed to fetch page, status: " ++ Status resp),
              withWorld s (body_Close (Body_ resp) w1).2)
    end.
Proof.
  unfold MainProgram.fetchHTML, bind. rewrite call_eq.
  destruct (http_Get url (world s)) as [[resp|err] w1]; cbn [fst snd]; [|reflexivity].
  destruct (Z.eqb (StatusCode resp) 200).
  - rewrite call_eq. cbn [world withWorld].
    destruct (ioutil_ReadAll (Body_ resp) w1) as [[html|err] w2]; cbn [fst snd ret];
      rewrite call_eq; reflexivity.
  - cbn [ret]. rewrite call_eq. reflexivity.
Qed.

(** X19.  [fetchHTML] returns a page exactly when the request is
    answered, the status code of the answer is 200 and its body can be
    read to the end; the page is then that body. *)
Theorem fetchHTML_succeeds_iff (url html : gostring) (s : State) :
  (MainProgram.fetchHTML url s).1 = Ok html
  <-> exists resp w1 w2,
        http_Get url (world s) = (Ok resp, w1)
        /\ StatusCode resp = 200%Z
        /\ ioutil_ReadAll (Body_ resp) w1 = (Ok html, w2).
Proof.
  rewrite fetchHTML_eq. split.
  - destruct (http_Get url (world s)) as [[resp|err] w1]; [|discriminate].
    destruct (Z.eqb (StatusCode resp) 200) eqn:E; [|discriminate].
    apply Z.eqb_eq in E.
    destruct (ioutil_ReadAll (Body_ resp) w1) as [[h|err] w2] eqn:Er; [|discriminate].
    cbn [fst]. intros H. injection H as ->.
    exists resp, w1, w2. repeat split; assumption.
  - intros (resp & w1 & w2 & -> & Hc & Hr).
    rewrite Hc, Z.eqb_refl, Hr. reflexivity.
Qed.

(** X20.  After an answered request [fetchHTML] closes the body of the
    answer as its last action, whatever it returns; when the status
    code is not 200 it returns the status text as the error and does
    not read the body. *)
Theorem fetchHTML_closes_the_body (url : gostring) (s : State)
  (resp : Response ReadCloser) (w1 : World)
  (Hans : http_Get url (world s) = (Ok resp, w1)) :
  (exists w2, world (MainProgram.fetchHTML url s).2 = (body_Close (Body_ resp) w2).2)
  /\ (StatusCode resp <> 200%Z ->
      MainProgram.fetchHTML url s
      = (Err (str "failed to fetch page, status: " ++ Status resp),
         withWorld s (body_Close (Body_ resp) w1).2)).
Proof.
  rewrite fetchHTML_eq, Hans. split.
  - destruct (Z.eqb (StatusCode resp) 200).
    + destruct (ioutil_ReadAll (Body_ resp) w1) as [b w2]. exists w2. reflexivity.
    + exists w1. reflexivity.
  - intros Hne. apply Z.eqb_neq in Hne. rewrite Hne. reflexivity.
Qed.

(** X21.  The stand-alone program ends in one of two ways: it returns,
    or it exits with status 1.  It exits exactly when the [.env] file
    cannot be loaded, or the completion client cannot be created, or
    the fetched page has candidates and [html.Parse] rejects it; a
    failed fetch, a page without candidates and a failure in a section
    all let it return. *)
Theorem main_exits_only_on_setup_or_parse_failure (s : State) :
  let (e0, w0) := godotenv_Load (world s) in
  let key := os_Getenv (str "GROQ_API_KEY") w0 in
  let (c, w1) := openai_New (str "llama-3.3-70b-versatile")
                            (str "https://api.groq.com/openai/v1") key w0 in
  let page := (MainProgram.fetchHTML MainProgram.productURL (withWorld s w1)).1 in
  ((MainProgram.main s).1 = Returned \/ (MainProgram.main s).1 = Exited 1)
  /\ ((MainProgram.main s).1 = Exited 1
      <-> e0 <> None
          \/ (exists e, c = Err e)
          \/ (exists html e, page = Ok html
                             /\ MainGo.findReviewIDs html <> []
                             /\ html_Parse html = Err e)).
Proof.
  unfold MainProgram.main, bind. rewrite call_eq.
  destruct (godotenv_Load (world s)) as [e0 w0]. cbn [fst snd]. cbv zeta.
  destruct e0 as [e|].
  { destruct (openai_New _ _ _ w0) as [c w1].
    cbn [log_Print ret fst]. split; [right; reflexivity|].
    split; [intros _; left; discriminate | reflexivity]. }
  rewrite call_eq.
  change (world (withWorld s w0)) with w0.
  destruct (openai_New _ _ _ w0) as [[client|e] w1]; cbn [fst snd].
  2:{ cbn [log_Print ret fst]. split; [right; reflexivity|].
      split; [intros _; right; left; eexists; reflexivity | reflexivity]. }
  change (withWorld (withWorld s w0) w1) with (withWorld s w1).
  destruct (MainProgram.fetchHTML MainProgram.productURL (withWorld s w1))
    as [[html|err] s2]; cbn [fst].
  2:{ cbn [fmt_Println ret fst]. split; [left; reflexivity|]. split; [discriminate|].
      intros [H|[[e H]|(h & e & H & _)]]; [congruence | discriminate | discriminate]. }
  cbv zeta.
  destruct (MainGo.findReviewIDs html) as [|id ids] eqn:Eids.
  { cbn [log_Print ret fst]. split; [left; reflexivity|]. split; [discriminate|].
    intros [H|[[e H]|(h & e & H & Hne & _)]]; [congruence | discriminate |].
    injection H as <-. congruence. }
  destruct (html_Parse html) as [doc|e] eqn:Ep.
  - destruct (MainProgram.handleSections doc (id :: ids) s2) as [[] s3]. cbn [ret fst].
    split; [left; reflexivity|]. split; [discriminate|].
    intros [H|[[e H]|(h & e & H & _ & Hp)]]; [congruence | discriminate |].
    injection H as <-. congruence.
  - cbn [log_Print ret fst]. split; [right; reflexivity|]. split; [|reflexivity].
    intros _. right. right. exists html, e.
    split; [reflexivity|]. split; [rewrite Eids; discriminate | exact Ep].
Qed.

End MainProperties.

(** X14, witness: an environment in which the key is empty. *)
Lemma missing_api_key_opens_nothing_witness :
  let RT := Machine.runtime staticSite Machine.NoFault in
  let HT := Machine.host staticSite Machine.NoFault Machine.keyless in
  let s0 := start staticSite in
  os_Getenv (str "GROQ_API_KEY") (godotenv_Load (world s0)).2 = []
  /\ (NewReviewScraper s0).1
       = Err (str "GROQ_API_KEY environment variable is required")
  /\ world (NewReviewScraper s0).2 = (godotenv_Load (world s0)).2.
Proof.
  intros RT HT s0.
  assert (H : os_Getenv (str "GROQ_API_KEY") (godotenv_Load (world s0)).2 = [])
    by reflexivity.
  exact (conj H (@missing_api_key_opens_nothing RT HT s0 H)).
Defined.


(** X16, witness: the same machine. *)
Lemma Close_quits_the_opened_session_witness :
  let RT := Machine.runtime staticSite Machine.NoFault in
  let HT := Machine.host staticSite Machine.NoFault Machine.keyed in
  let s0 := start staticSite in
  let rs := mkReviewScraper (tt : LLMClient)
              (Some (str "http://localhost:4445/wd/hub" : WebDriver)) in
  let s1 := mkState 0 [str "Warning: Error loading .env file"] [] [] in
  NewReviewScraper s0 = (Ok rs, s1)
  /\ exists d, driver rs = Some d
               /\ Close rs s1 = (tt, withWorld s1 (driver_Quit d (world s1)).2).
Proof.
  intros RT HT s0 rs s1.
  assert (H : NewReviewScraper s0 = (Ok rs, s1)) by (vm_compute; reflexivity).
  exact (conj H (@Close_quits_the_opened_session RT HT s0 s1 rs H)).
Defined.


(** X18, witness: the same browser. *)
Lemma handler_rejects_early_witness :
  let RT := Machine.runtime staticSite Machine.GetFails in
  let s0 := start staticSite in
  let page := str "https://shop.example/p" in
  (page = [] \/ (driver_Get page (world s0)).1 <> None)
  /\ exists msg,
       (reviewsHandler 7 page s0).1 = Some (Api.mkAPIResponse false [] msg)
       /\ logs (reviewsHandler 7 page s0).2 = logs s0
       /\ allReviews (reviewsHandler 7 page s0).2 = allReviews s0
       /\ world (reviewsHandler 7 page s0).2
          = match page with [] => world s0 | _ :: _ => (driver_Get page (world s0)).2 end.
Proof.
  intros RT s0 page.
  assert (H : page = [] \/ (driver_Get page (world s0)).1 <> None)
    by (right; vm_compute; discriminate).
  exact (conj H (@handler_rejects_early RT 7 page s0 H)).
Defined.

(** X20, witness: a request answered with status 404. *)
Lemma fetchHTML_closes_the_body_witness :
  let RT := Machine.runtime staticSite Machine.NoFault in
  let HT := Machine.host staticSite Machine.NoFault Machine.notFound in
  let s0 := start staticSite in
  let url := str "https://shop.example/gone" in
  let resp := mkResponse 404%Z (str "404 Not Found")
                (Ok (str "<html>gone</html>") : ReadCloser) in
  http_Get url (world s0) = (Ok resp, 0)
  /\ StatusCode resp <> 200%Z
  /\ (exists w2, world (MainProgram.fetchHTML url s0).2 = (body_Close (Body_ resp) w2).2)
  /\ MainProgram.fetchHTML url s0
     = (Err (str "failed to fetch page, status: " ++ Status resp),
        withWorld s0 (body_Close (Body_ resp) 0).2).
Proof.
  intros RT HT s0 url resp.
  assert (H : http_Get url (world s0) = (Ok resp, 0)) by reflexivity.
  assert (Hc : StatusCode resp <> 200%Z) by (cbn; lia).
  pose proof (@fetchHTML_closes_the_body RT HT url s0 resp 0 H) as [T1 T2].
  exact (conj H (conj Hc (conj T1 (T2 Hc)))).
Defined.

(** ** The stagnation test on a page that does not change *)

(** C1: on a page that never changes, the markup fetched after the
    first scroll is the very snapshot processed at the top of the pass,
    which is when the loop is to be done; the loop goes on instead,
    since the comparison is with [prevPageSource], still empty then.
    The same snapshot is processed a second time before the loop ends,
    and [ScrapeReviews] returns every review of the page twice, however
    many passes are allowed. *)
Theorem static_page_is_scraped_twice :
  let RT := runtime staticSectionSite in
  let s0 := start staticSectionSite in
  let m := render sectionPage in
  let good := mkReview (str "Good") (str "Fine") (str "4/5") (str "Ann") in
  (call driver_PageSource s0).1 = Ok m
  /\ (iteration processPage [] s0).1 = Scrolled m
  /\ ~ done_iff_same_as_processed
  /\ forall k,
       outcomes (2 + k) processPage [] s0 = [Scrolled m; Stagnant m]
       /\ map fst (runYield (2 + k) [] s0) = [m; m]
       /\ (ScrapeReviews (2 + k) (str "https://shop.example/p") s0).1
          = Some (Ok [good; good]).
Proof.
  intros RT s0 m good.
  pose (s1 := mkState 0 [] [] [good] : State).
  pose (s2 := mkState 0 [] [] [good; good] : State).
  assert (E0 : call driver_PageSource s0 = (Ok m, s0)) by reflexivity.
  assert (E1 : iteration processPage [] s0 = (Scrolled m, s1))
    by (vm_compute; reflexivity).
  assert (E2 : iteration processPage m s1 = (Stagnant m, s2))
    by (vm_compute; reflexivity).
  assert (E3 : call driver_PageSource s1 = (Ok m, s1)) by reflexivity.
  split; [rewrite E0; reflexivity|].
  split; [rewrite E1; reflexivity|].
  split.
  - intros H.
    assert (E : iteration processPage [] s0 = (Stagnant m, s1)).
    { apply (H RT processPage [] s0 m s0 s1 s1 s1 m s1);
        try reflexivity; vm_compute; reflexivity. }
    rewrite E1 in E. discriminate E.
  - intros k. split; [|split].
    + cbn [outcomes Nat.add]. rewrite E1, E2. reflexivity.
    + cbn [runYield Nat.add]. rewrite E0, E1, E3, E2. reflexivity.
    + assert (P : paginate (2 + k) processPage [] s0 = (Some None, s2)).
      { cbn [paginate Nat.add]. unfold bind at 1. rewrite E1.
        unfold bind at 1. rewrite E2. reflexivity. }
      assert (G1 : call (driver_Get (str "https://shop.example/p")) s0 = (None, s0))
        by reflexivity.
      assert (G2 : call (driver_SetImplicitWaitTimeout pageLoadTimeout) s0 = (None, s0))
        by reflexivity.
      assert (G3 : declareAllReviews s0 = (tt, s0)) by reflexivity.
      unfold ScrapeReviews, handlePagination.
      unfold bind at 1. rewrite G1.
      unfold bind at 1. rewrite G2.
      unfold bind at 1. rewrite G3.
      unfold bind at 1. rewrite P. reflexivity.
Qed.
